(** * scrapper/main.py: the repository crawler and its SHA-256 manifest

    A shallow embedding of [src/scrapper/main.py].  The module crawls a Gitea
    repository page by page behind one [asyncio.Semaphore], stores every file
    it finds, and afterwards writes a CSV manifest with one SHA-256 digest
    per stored file.

    Conventions of the embedding.
    - The coroutines never spawn a task: every [await] is a plain call, so a
      coroutine is a function from the local file system to an outcome, the
      new file system and the events it produced, in order.
    - [async with semaphore] is well bracketed.  The semaphore value at a
      program point is the initial value minus the number of enclosing
      [async with] blocks, so the number of free slots is passed down as
      an argument; [EvAcquire] and [EvRelease] record the two ends of each
      block in the event list.
    - The remote server and the HTML parser are parameters of the
      development ([session_get], [soup_tbody]); a response that was
      received is read to its end.
    - The local store maps the path strings the program builds to file
      contents; what [os.walk] finds below a directory is a tree of regular
      files and directories, which is all the crawler creates. *)

From Stdlib Require Import ZArith Lia List Ascii String.
From Stdlib.Strings Require Import Byte.
From stdpp Require Import base option list gmap sets strings.
From Equations Require Import Equations.
From Equations.Prop Require Import Logic.

Open Scope string_scope.
Open Scope list_scope.
Open Scope stdpp_scope.

(** ** Strings, the way the module uses them *)

(** [s.split(sep)] for a one-character separator: never the empty list. *)
Fixpoint split (sep : ascii) (s : string) : list string :=
  match s with
  | EmptyString => [EmptyString]
  | String c s' =>
      if Ascii.eqb c sep then EmptyString :: split sep s'
      else match split sep s' with
           | seg :: segs => String c seg :: segs
           | [] => [String c EmptyString]
           end
  end.

(** [s.split('/')[-1]]. *)
Definition last_segment (s : string) : string :=
  List.last (split "/" s) EmptyString.

(** [s[len(p):]] when [s.startswith(p)]. *)
Fixpoint strip_prefix (p s : string) : option string :=
  match p, s with
  | EmptyString, _ => Some s
  | String a p', String b s' =>
      if Ascii.eqb a b then strip_prefix p' s' else None
  | String _ _, EmptyString => None
  end.

Definition ends_with_slash (s : string) : bool :=
  match List.last (list_ascii_of_string s) "a"%char with
  | "/"%char => true
  | _ => false
  end.

(** [os.path.join(a, b)] of posixpath, for two components. *)
Definition os_path_join (a b : string) : string :=
  match b with
  | String "/" _ => b
  | _ => if String.eqb a EmptyString || ends_with_slash a then a +:+ b
         else a +:+ "/" +:+ b
  end.

(** [re.sub(pattern, repl, s)] for a pattern and a replacement without
    metacharacters, which is all the module passes: every occurrence of
    [pattern], found left to right without overlap, becomes [repl].
    [skip] counts the characters of a match that are still to be dropped. *)
Fixpoint re_sub_from (skip : nat) (pattern repl s : string) : string :=
  match s with
  | EmptyString => EmptyString
  | String c s' =>
      match skip with
      | S k => re_sub_from k pattern repl s'
      | 0 =>
          match strip_prefix pattern s with
          | Some _ =>
              repl +:+ re_sub_from (String.length pattern - 1) pattern repl s'
          | None => String c (re_sub_from 0 pattern repl s')
          end
      end
  end.

(** The empty pattern matches before every character and at the end. *)
Fixpoint re_sub_empty (repl s : string) : string :=
  repl +:+ match s with
           | EmptyString => EmptyString
           | String c s' => String c (re_sub_empty repl s')
           end.

Definition re_sub (pattern repl s : string) : string :=
  match pattern with
  | EmptyString => re_sub_empty repl s
  | String _ _ => re_sub_from 0 pattern repl s
  end.

(** ** Module constants *)

Definition PATTERN_TO_FIND : string := "/src/branch".
Definition PATTERN_TO_SUB : string := "/raw/branch".
Definition CLASSES : list string := ["octicon-file-directory-fill"; "octicon-file"].
Definition PATH_TO_RESULT : string := "repository_sha256".
Definition SEMAPHORE_LIMIT : nat := 3.

(** ** The local file system *)

(** Files and directories are keyed by the path string the program spells. *)
Record fsstate : Type := FsState {
  files : gmap string (list byte);
  dirs : gset string
}.

Definition set_file (p : string) (data : list byte) (fs : fsstate) : fsstate :=
  {| files := <[p := data]> (files fs); dirs := dirs fs |}.

Definition add_dir (p : string) (fs : fsstate) : fsstate :=
  {| files := files fs; dirs := {[p]} ∪ dirs fs |}.

Fixpoint join_segments (segs : list string) : string :=
  match segs with
  | [] => EmptyString
  | [seg] => seg
  | seg :: segs' => seg +:+ "/" +:+ join_segments segs'
  end.

(** The text before the last slash of a path. *)
Definition parent_dir (p : string) : string :=
  join_segments (removelast (split "/" p)).

(** Whether [open(p, 'w')] or [open(p, 'wb')] succeeds: the last component
    is not empty, [p] is not a directory, and the parent is the working
    directory, the root, or a directory that exists. *)
Definition open_ok (fs : fsstate) (p : string) : bool :=
  negb (String.eqb (last_segment p) EmptyString)
  && negb (bool_decide (p ∈ dirs fs))
  && (String.eqb (parent_dir p) EmptyString || bool_decide (parent_dir p ∈ dirs fs)).

(** ** Outcomes, events and the coroutine monad *)

Inductive exn : Type :=
| IndexError | AttributeError | TypeError | OSError | ClientError.

(** A coroutine returns, raises, or waits for the semaphore for ever. *)
Inductive outcome (A : Type) : Type :=
| Returned (a : A)
| Raised (e : exn)
| Waiting.
Arguments Returned {A} a.
Arguments Raised {A} e.
Arguments Waiting {A}.

Inductive coro : Type :=
| SaveFile (url path : string)
| FetchData (local_path url : string).

Inductive event : Type :=
| EvEnter (c : coro)
| EvLeave (c : coro)
| EvAcquire
| EvRelease
| EvGet (address : string)
| EvLogError (msg : string).

#[global] Instance exn_eq_dec : EqDecision exn.
Proof. solve_decision. Defined.
#[global] Instance coro_eq_dec : EqDecision coro.
Proof. solve_decision. Defined.
#[global] Instance event_eq_dec : EqDecision event.
Proof. solve_decision. Defined.

Definition io (A : Type) : Type := fsstate → outcome A * fsstate * list event.

#[global] Instance io_ret : MRet io := λ A a fs, (Returned a, fs, []).

#[global] Instance io_bind : MBind io := λ A B k m fs,
  match m fs with
  | (Returned a, fs1, t1) =>
      match k a fs1 with (r, fs2, t2) => (r, fs2, t1 ++ t2) end
  | (Raised e, fs1, t1) => (Raised e, fs1, t1)
  | (Waiting, fs1, t1) => (Waiting, fs1, t1)
  end.

Definition raise {A} (e : exn) : io A := λ fs, (Raised e, fs, []).
Definition emit (e : event) : io unit := λ fs, (Returned tt, fs, [e]).
Definition get_fs : io fsstate := λ fs, (Returned fs, fs, []).
Definition modify_fs (f : fsstate → fsstate) : io unit :=
  λ fs, (Returned tt, f fs, []).

(** [async with semaphore: body].  With no free slot [acquire] never
    returns; otherwise the body runs with one slot less and the slot is
    given back when the body returns or raises. *)
Definition async_with {A} (free : nat) (body : nat → io A) : io A :=
  match free with
  | 0 => λ fs, (Waiting, fs, [])
  | S free' => λ fs,
      match body free' fs with
      | (Waiting, fs', t) => (Waiting, fs', EvAcquire :: t)
      | (r, fs', t) => (r, fs', EvAcquire :: t ++ [EvRelease])
      end
  end.

(** Entry and exit of a coroutine call, for the event list only. *)
Definition coroutine {A} (c : coro) (body : io A) : io A := λ fs,
  match body fs with
  | (Waiting, fs', t) => (Waiting, fs', EvEnter c :: t)
  | (r, fs', t) => (r, fs', EvEnter c :: t ++ [EvLeave c])
  end.

Fixpoint for_each {A} (body : A → io unit) (l : list A) : io unit :=
  match l with
  | [] => mret tt
  | x :: l' => body x ;; for_each body l'
  end.

(** [makedirs(p, exist_ok=True)]: fails only when [p] names a file.  Every
    call site extends an existing directory by one component. *)
Definition os_makedirs (p : string) : io unit := λ fs,
  match files fs !! p with
  | Some _ => (Raised OSError, fs, [])
  | None => (Returned tt, add_dir p fs, [])
  end.

(** [open(p, 'w')] and [open(p, 'wb')]: the file is created or truncated. *)
Definition open_write (p : string) : io unit := λ fs,
  if open_ok fs p then (Returned tt, set_file p [] fs, [])
  else (Raised OSError, fs, []).

(** [document.write(data)] on the file opened at [p]. *)
Definition file_write (p : string) (data : list byte) : io unit :=
  modify_fs (λ fs, set_file p (default [] (files fs !! p) ++ data) fs).

(** ** The network and the page parser *)

Record response : Type := Response {
  status : nat;
  content : list byte
}.

(** What [await session.get(address)] does: it raises
    [ClientConnectorError], raises some other client error, or returns a
    response, whatever its HTTP status. *)
Inductive get_result : Type :=
| ConnectorError
| OtherClientError
| Got (r : response).

(** The tag found by [element.find_next_sibling()], with its [href]. *)
Record sibling : Type := Sibling { href : option string }.

(** A tag below [soup.tbody]: its [class] list and its next sibling tag. *)
Record element : Type := Element {
  class_ : list string;
  find_next_sibling : option sibling
}.

(** [tag.find_all(class_=names)] over the tags in document order: a tag
    matches when one of its classes is one of [names]. *)
Definition find_all (names : list string) (tags : list element) : list element :=
  List.filter
    (λ tag, existsb (λ c, existsb (String.eqb c) names) (class_ tag)) tags.

(** [await response.content.read(1024)] until it returns no data, each part
    written to the open file [p]. *)
Equations? read_loop (p : string) (rest : list byte) (fs : fsstate)
  : outcome unit * fsstate * list event by wf (length rest) lt :=
  read_loop p rest fs with inspect (take 1024 rest) := {
    | exist _ nil _ => (mret tt : io unit) fs
    | exist _ (cons b data) Hpart =>
        (file_write p (b :: data) ;;
         ((λ fs', read_loop p (drop 1024 rest) fs') : io unit)) fs }.
Proof.
  destruct rest as [|b0 rest]; [discriminate|].
  rewrite length_drop. simpl. lia.
Qed.

Section Crawl.

Variable session_get : string → get_result.
Variable soup_tbody : list byte → option (list element).

Definition save_file (free : nat) (base_url url path : string) : io unit :=
  coroutine (SaveFile url path) (
    let filename := last_segment url in
    async_with free (λ _,
      emit (EvGet (base_url +:+ url)) ;;
      match session_get (base_url +:+ url) with
      | ConnectorError =>
          emit (EvLogError
                  ("An error occurred while downloading the file: " +:+ url)) ;;
          mret tt
      | OtherClientError => raise ClientError
      | Got response =>
          let document := path +:+ "/" +:+ filename in
          open_write document ;;
          read_loop document (content response)
      end)).

(** The body of the [for element in objects_in_repo] loop; [save] and
    [fetch] are the two coroutines it awaits. *)
Definition fetch_element (save fetch : string → string → io unit)
    (local_path : string) (element : element) : io unit :=
  match class_ element !! 1%nat with
  | None => raise IndexError
  | Some marker =>
      if String.eqb marker (nth 1 CLASSES EmptyString) then
        match find_next_sibling element with
        | None => raise AttributeError
        | Some tag =>
            match href tag with
            | None => raise TypeError
            | Some link =>
                let url_to_download :=
                  re_sub PATTERN_TO_FIND PATTERN_TO_SUB link in
                save url_to_download local_path
            end
        end
      else
        match find_next_sibling element with
        | None => raise AttributeError
        | Some tag =>
            match href tag with
            | None => raise AttributeError
            | Some url_to_directory =>
                let new_path :=
                  os_path_join local_path (last_segment url_to_directory) in
                os_makedirs new_path ;;
                fetch new_path url_to_directory
            end
        end
  end.

Fixpoint fetch_data (free : nat) (base_url local_path url : string)
    {struct free} : io unit :=
  coroutine (FetchData local_path url) (
    async_with free (λ free',
      emit (EvGet (base_url +:+ url)) ;;
      match session_get (base_url +:+ url) with
      | ConnectorError =>
          emit (EvLogError
                  ("An error occurred while parsing the url: " +:+ url)) ;;
          mret tt
      | OtherClientError => raise ClientError
      | Got response =>
          match soup_tbody (content response) with
          | None => raise AttributeError
          | Some tags =>
              let objects_in_repo := find_all CLASSES tags in
              for_each
                (fetch_element (save_file free' base_url)
                   (fetch_data free' base_url) local_path)
                objects_in_repo
          end
      end)).

End Crawl.

(** The file [save_file] writes to: [f'{path}/{filename}']. *)
Definition destination (url path : string) : string :=
  path +:+ "/" +:+ last_segment url.

(** The events of a [save_file] call that got its slot, around the events
    [inner] of the block. *)
Definition save_events (url path : string) (inner : list event) : list event :=
  EvEnter (SaveFile url path) :: EvAcquire :: inner
    ++ [EvRelease; EvLeave (SaveFile url path)].

(** ** SHA-256, as [hashlib.sha256] computes it (FIPS 180-4)

    Words are integers in [0, 2^32); every addition wraps around. *)

Module SHA256.

Open Scope Z_scope.

Definition wrap (x : Z) : Z := x mod 2 ^ 32.
Definition add32 (x y : Z) : Z := wrap (x + y).
Definition rotr (n x : Z) : Z :=
  Z.lor (Z.shiftr x n) (wrap (Z.shiftl x (32 - n))).
Definition shr (n x : Z) : Z := Z.shiftr x n.
Definition not32 (x : Z) : Z := Z.lxor x 0xffffffff.

Definition Ch (x y z : Z) : Z :=
  Z.lxor (Z.land x y) (Z.land (not32 x) z).
Definition Maj (x y z : Z) : Z :=
  Z.lxor (Z.lxor (Z.land x y) (Z.land x z)) (Z.land y z).
Definition Sigma0 (x : Z) : Z :=
  Z.lxor (Z.lxor (rotr 2 x) (rotr 13 x)) (rotr 22 x).
Definition Sigma1 (x : Z) : Z :=
  Z.lxor (Z.lxor (rotr 6 x) (rotr 11 x)) (rotr 25 x).
Definition sigma0 (x : Z) : Z :=
  Z.lxor (Z.lxor (rotr 7 x) (rotr 18 x)) (shr 3 x).
Definition sigma1 (x : Z) : Z :=
  Z.lxor (Z.lxor (rotr 17 x) (rotr 19 x)) (shr 10 x).

(** The primes below [bound], in order. *)
Definition primes_below (bound : nat) : list Z :=
  List.filter
    (λ n, forallb (λ d, negb (n mod d =? 0))
            (map Z.of_nat (seq 2 (Z.to_nat n - 2))))
    (map Z.of_nat (seq 2 (bound - 2))).

(** The largest [r] below [2 ^ 35] with [r ^ 3 <= n], bit by bit. *)
Definition cube_root (n : Z) : Z :=
  fold_left
    (λ r bit, let r' := r + 2 ^ Z.of_nat bit in
              if r' ^ 3 <=? n then r' else r)
    (rev (seq 0 35)) 0.

(** The round constants: the first 32 bits of the fractional parts of the
    cube roots of the first 64 primes. *)
Definition K : list Z :=
  Eval vm_compute in
    map (λ p, wrap (cube_root (p * 2 ^ 96))) (take 64 (primes_below 312)).

(** The eight working words, also the chaining value. *)
Record words8 : Type := Words8 {
  wa : Z; wb : Z; wc : Z; wd : Z; we : Z; wf : Z; wg : Z; wh : Z
}.

(** The initial chaining value: the first 32 bits of the fractional parts
    of the square roots of the first 8 primes. *)
Definition root_word (p : Z) : Z := wrap (Z.sqrt (p * 2 ^ 64)).

Definition H0 : words8 :=
  Eval vm_compute in
    Words8 (root_word 2) (root_word 3) (root_word 5) (root_word 7)
           (root_word 11) (root_word 13) (root_word 17) (root_word 19).

Definition byte_val (b : byte) : Z := Z.of_N (Byte.to_N b).

(** The [n] low bytes of [x], most significant first. *)
Fixpoint be_bytes (n : nat) (x : Z) : list Z :=
  match n with
  | O => []
  | S n' => Z.land (Z.shiftr x (8 * Z.of_nat n')) 0xff :: be_bytes n' x
  end.

(** Padding: a 1 bit, zeros up to 56 modulo 64 bytes, the bit length. *)
Definition pad (msg : list Z) : list Z :=
  let len := Z.of_nat (length msg) in
  msg ++ [0x80] ++ repeat 0 (Z.to_nat ((55 - len) mod 64))
      ++ be_bytes 8 (8 * len).

Definition be_word (bs : list Z) : Z :=
  fold_left (λ acc b, Z.lor (Z.shiftl acc 8) b) bs 0.

(** [n] groups of [size] consecutive items. *)
Fixpoint groups {A} (size n : nat) (l : list A) : list (list A) :=
  match n with
  | O => []
  | S n' => take size l :: groups size n' (drop size l)
  end.

Definition block_words (block : list Z) : list Z :=
  map be_word (groups 4 16 block).

(** The message schedule, latest word first: [rev_w] holds
    [W(t-1), W(t-2), ...]. *)
Fixpoint extend (n : nat) (rev_w : list Z) : list Z :=
  match n with
  | O => rev_w
  | S n' =>
      let w := add32 (add32 (sigma1 (nth 1 rev_w 0)) (nth 6 rev_w 0))
                     (add32 (sigma0 (nth 14 rev_w 0)) (nth 15 rev_w 0)) in
      extend n' (w :: rev_w)
  end.

Definition schedule (block : list Z) : list Z :=
  rev (extend 48 (rev (block_words block))).

Definition round (s : words8) (kw : Z * Z) : words8 :=
  let '(k, w) := kw in
  let t1 := add32 (add32 (add32 (wh s) (Sigma1 (we s)))
                         (add32 (Ch (we s) (wf s) (wg s)) k)) w in
  let t2 := add32 (Sigma0 (wa s)) (Maj (wa s) (wb s) (wc s)) in
  Words8 (add32 t1 t2) (wa s) (wb s) (wc s)
         (add32 (wd s) t1) (we s) (wf s) (wg s).

Definition compress (h : words8) (block : list Z) : words8 :=
  let s := fold_left round (combine K (schedule block)) h in
  Words8 (add32 (wa h) (wa s)) (add32 (wb h) (wb s))
         (add32 (wc h) (wc s)) (add32 (wd h) (wd s))
         (add32 (we h) (we s)) (add32 (wf h) (wf s))
         (add32 (wg h) (wg s)) (add32 (wh h) (wh s)).

(** The 32 bytes of [hashlib.sha256(data).digest()]. *)
Definition digest (data : list byte) : list Z :=
  let padded := pad (map byte_val data) in
  let h := fold_left compress
             (groups 64 (length padded / 64) padded) H0 in
  flat_map (be_bytes 4)
    [wa h; wb h; wc h; wd h; we h; wf h; wg h; wh h].

Definition hex_digit (n : Z) : ascii :=
  nth (Z.to_nat (n mod 16))
    (list_ascii_of_string "0123456789abcdef") "0"%char.

(** [hexdigest()]: two lower-case digits per byte. *)
Fixpoint hex (bs : list Z) : string :=
  match bs with
  | [] => EmptyString
  | b :: bs' =>
      String (hex_digit (Z.shiftr b 4)) (String (hex_digit b) (hex bs'))
  end.

Definition hexdigest (data : list byte) : string := hex (digest data).

End SHA256.

(** ** The manifest *)

(** [open(file_path, 'rb').read()], then [hashlib.sha256(...).hexdigest()]. *)
Definition calculate_sha256 (file_path : string) : io string := λ fs,
  match files fs !! file_path with
  | Some data_to_hash => (Returned (SHA256.hexdigest data_to_hash), fs, [])
  | None => (Raised OSError, fs, [])
  end.

#[local] Unset Elimination Schemes.
(** What [os.scandir] finds below a directory: regular files and
    directories, in the order it reports them. *)
Inductive node : Type :=
| File
| Dir (entries : list (string * node)).
#[local] Set Elimination Schemes.

(** Induction over a tree, with the hypothesis for every entry. *)
Fixpoint node_ind (P : node → Prop) (HFile : P File)
    (HDir : ∀ entries, Forall (λ e, P (snd e)) entries → P (Dir entries))
    (n : node) : P n :=
  match n with
  | File => HFile
  | Dir entries =>
      HDir entries
        ((fix all (es : list (string * node)) : Forall (λ e, P (snd e)) es :=
            match es with
            | [] => List.Forall_nil _
            | e :: es' =>
                List.Forall_cons _ e es'
                  (node_ind P HFile HDir (snd e)) (all es')
            end) entries)
  end.

Definition is_dir (n : node) : bool :=
  match n with Dir _ => true | File => false end.

Definition dir_names (entries : list (string * node)) : list string :=
  map fst (List.filter (λ e, is_dir (snd e)) entries).

Definition file_names (entries : list (string * node)) : list string :=
  map fst (List.filter (λ e, negb (is_dir (snd e))) entries).

(** [os.walk(top)], top down: the triple of [top], then the walk of each
    of its directories in turn.  A [top] that is no directory yields
    nothing. *)
Fixpoint os_walk (top : string) (tree : node)
  : list (string * list string * list string) :=
  match tree with
  | File => []
  | Dir entries =>
      (top, dir_names entries, file_names entries)
      :: (fix descend (es : list (string * node)) :=
            match es with
            | [] => []
            | (name, sub) :: es' =>
                (if is_dir sub then os_walk (os_path_join top name) sub
                 else [])
                ++ descend es'
            end) entries
  end.

Definition CR : ascii := "013"%char.
Definition LF : ascii := "010"%char.
Definition QUOTE : ascii := "034"%char.

(** [csv.writer] with the default dialect: a field holding a comma, a
    quote, a carriage return or a line feed is quoted and its quotes are
    doubled; fields are joined by commas; a row ends in CR LF. *)
Definition csv_special (c : ascii) : bool :=
  Ascii.eqb c ","%char || Ascii.eqb c QUOTE || Ascii.eqb c CR || Ascii.eqb c LF.

Fixpoint double_quotes (s : string) : string :=
  match s with
  | EmptyString => EmptyString
  | String c s' =>
      if Ascii.eqb c QUOTE then String QUOTE (String QUOTE (double_quotes s'))
      else String c (double_quotes s')
  end.

Definition csv_field (s : string) : string :=
  if existsb csv_special (list_ascii_of_string s)
  then String QUOTE (double_quotes s) +:+ String QUOTE EmptyString
  else s.

Fixpoint csv_join (fields : list string) : string :=
  match fields with
  | [] => EmptyString
  | [fld] => csv_field fld
  | fld :: fields' => csv_field fld +:+ "," +:+ csv_join fields'
  end.

Definition csv_row (fields : list string) : string :=
  csv_join fields +:+ String CR (String LF EmptyString).

(** [writer.writerow(...)] and [writer.writeheader()] on the file at [p]. *)
Definition writerow (p : string) (fields : list string) : io unit :=
  file_write p (list_byte_of_string (csv_row fields)).

Definition fieldnames : list string := ["file_path"; "sha256_hash"].

(** [tree] is what [os.walk] finds below [directory]. *)
Definition calculate_sha256_for_directory (tree : node)
    (directory path_to_result : string) : io unit :=
  open_write path_to_result ;;
  writerow path_to_result fieldnames ;;
  for_each
    (λ '(root, _, files),
       for_each
         (λ file_name,
            let file_path := os_path_join root file_name in
            sha256_hash ← calculate_sha256 file_path ;
            writerow path_to_result [file_path; sha256_hash])
         files)
    (os_walk directory tree).

Section Main.

Variable session_get : string → get_result.
Variable soup_tbody : list byte → option (list element).
(** The tree [os.walk] finds below a path, by the state of the store. *)
Variable scandir_tree : fsstate → string → node.

Definition main (base_url project_url path_prefix : string) : io unit :=
  let path_to_project :=
    os_path_join path_prefix (last_segment project_url) in
  os_makedirs path_to_project ;;
  fetch_data session_get soup_tbody SEMAPHORE_LIMIT
    base_url path_to_project project_url ;;
  fs ← get_fs ;
  calculate_sha256_for_directory (scandir_tree fs path_to_project)
    path_to_project (os_path_join path_prefix PATH_TO_RESULT).

End Main.

(** ** Notions the properties are stated with *)

(** What an event does to the number of open [async with semaphore]
    blocks. *)
Definition slot_change (e : event) : Z :=
  match e with
  | EvAcquire => 1
  | EvRelease => -1
  | _ => 0
  end.

(** The number of [async with semaphore] blocks that are open after the
    events [t]: the network operations then in flight. *)
Fixpoint active (t : list event) : Z :=
  match t with
  | [] => 0
  | e :: t' => (slot_change e + active t')%Z
  end.

Definition is_get (e : event) : Prop :=
  match e with EvGet _ => True | _ => False end.

(** Starting with [cur] open blocks, the events [t] never leave the range
    from 0 to [n] and every GET is sent with at least one block open. *)
Fixpoint within (cur n : Z) (t : list event) : Prop :=
  match t with
  | [] => True
  | e :: t' =>
      (0 ≤ cur + slot_change e ≤ n)%Z
      ∧ (is_get e → (1 ≤ cur)%Z)
      ∧ within (cur + slot_change e) n t'
  end.

(** A computation that respects the semaphore: started with at least [lo] open
    blocks and [free] free slots, it stays [within] the bound and closes,
    unless it waits for ever, the blocks it opened. *)
Definition within_slots {A} (lo : Z) (free : nat) (m : io A) : Prop :=
  ∀ (cur n : Z) fs r fs' t,
    (lo ≤ cur)%Z → (cur + Z.of_nat free ≤ n)%Z →
    m fs = (r, fs', t) →
    within cur n t ∧ (r ≠ Waiting → active t = 0%Z).

(** A computation that produces no event. *)
Definition silent {A} (m : io A) : Prop := ∀ fs, (m fs).2 = [].

(** Coroutine [b] is entered while coroutine [a] has not finished. *)
Definition entered_before_left (t : list event) (a b : coro) : Prop :=
  ∃ t1 t2 t3, t = t1 ++ EvEnter b :: t2 ++ EvLeave a :: t3.

(** The coroutine the loop of [fetch_data] awaits for an entry. *)
Definition entry_coroutine (local_path : string) (e : element) : option coro :=
  match class_ e !! 1%nat, find_next_sibling e with
  | Some marker, Some (Sibling (Some link)) =>
      if String.eqb marker (nth 1 CLASSES EmptyString)
      then Some (SaveFile (re_sub PATTERN_TO_FIND PATTERN_TO_SUB link) local_path)
      else Some (FetchData (os_path_join local_path (last_segment link)) link)
  | _, _ => None
  end.

(** [r] is [s] with every occurrence of [pattern], taken left to right,
    replaced by [repl]. *)
Inductive Substituted (pattern repl : string) : string → string → Prop :=
| Substituted_end :
    Substituted pattern repl EmptyString EmptyString
| Substituted_hit s rest r :
    strip_prefix pattern s = Some rest →
    Substituted pattern repl rest r →
    Substituted pattern repl s (repl +:+ r)
| Substituted_miss c s r :
    strip_prefix pattern (String c s) = None →
    Substituted pattern repl s r →
    Substituted pattern repl (String c s) (String c r).



(** The [file_path] column, in the order the rows are written. *)
Definition walked_paths (directory : string) (tree : node) : list string :=
  flat_map (λ '(root, _, files), map (os_path_join root) files)
    (os_walk directory tree).

Definition is_hex_digest (s : string) : Prop :=
  String.length s = 64%nat ∧
  Forall (λ c, c ∈ list_ascii_of_string "0123456789abcdef")
    (list_ascii_of_string s).

(** A row whose digest is well formed and is the digest of the file it
    names; [p] is the manifest itself. *)
Definition hashed_row (fs : fsstate) (p : string) (row : string * string) : Prop :=
  is_hex_digest row.2
  ∧ (row.1 ≠ p →
     ∃ data, files fs !! row.1 = Some data ∧ row.2 = SHA256.hexdigest data).

(** A computation that leaves the store as it was or changes only the
    file [p]. *)
Definition touches_only {A} (p : string) (m : io A) : Prop :=
  ∀ fs r fs' t, m fs = (r, fs', t) → fs' = fs ∨ ∃ out, fs' = set_file p out fs.

(** The manifest for a list of rows: the header line, then one line per
    row, each as [csv.writer] writes it. *)
Definition rows_bytes (rows : list (string * string)) : list byte :=
  flat_map (λ row, list_byte_of_string (csv_row [row.1; row.2])) rows.

Definition manifest_bytes (rows : list (string * string)) : list byte :=
  list_byte_of_string (csv_row fieldnames) ++ rows_bytes rows.

(** ** A small remote repository to run the module on *)

Module Sample.

Definition base_url : string := "https://gitea.example".

Definition file_tag (link : string) : element :=
  Element ["svg"; "octicon-file"] (Some (Sibling (Some link))).

Definition dir_tag (link : string) : element :=
  Element ["svg"; "octicon-file-directory-fill"] (Some (Sibling (Some link))).

(** Pages are told apart by their text. *)
Definition soup_tbody (html : list byte) : option (list element) :=
  let text := string_of_list_byte html in
  if String.eqb text "page: flat" then
    Some [file_tag "/flat/src/branch/master/a.txt";
          file_tag "/flat/src/branch/master/b.txt"]
  else if String.eqb text "page: deep" then
    Some [dir_tag "/deep/src/branch/master/d1"]
  else if String.eqb text "page: d1" then
    Some [dir_tag "/deep/src/branch/master/d1/d2"]
  else if String.eqb text "page: d2" then
    Some [file_tag "/deep/src/branch/master/d1/d2/f.txt"]
  else if String.eqb text "page: odd" then
    Some [Element ["svg"; "octicon-git-branch"] None;
          Element ["octicon-file"] (Some (Sibling (Some "/odd/x")))]
  else None.

Definition page (text : string) : get_result :=
  Got (Response 200 (list_byte_of_string text)).

Definition session_get (address : string) : get_result :=
  if String.eqb address "https://gitea.example/flat" then page "page: flat"
  else if String.eqb address "https://gitea.example/flat/raw/branch/master/a.txt"
  then Got (Response 200 (list_byte_of_string "abc"))
  else if String.eqb address "https://gitea.example/flat/raw/branch/master/b.txt"
  then Got (Response 404 (list_byte_of_string "Not found"))
  else if String.eqb address "https://gitea.example/deep" then page "page: deep"
  else if String.eqb address "https://gitea.example/deep/src/branch/master/d1"
  then page "page: d1"
  else if String.eqb address "https://gitea.example/deep/src/branch/master/d1/d2"
  then page "page: d2"
  else if String.eqb address
            "https://gitea.example/deep/raw/branch/master/d1/d2/f.txt"
  then Got (Response 200 (list_byte_of_string "f"))
  else if String.eqb address "https://gitea.example/odd" then page "page: odd"
  else if String.eqb address "https://gitea.example/reset"
  then OtherClientError
  else ConnectorError.

(** The store before a run: the destination prefix [out] exists. *)
Definition fs0 : fsstate := FsState ∅ {["out"]}.

Definition scandir_tree (fs : fsstate) (top : string) : node := Dir [].

(** A local directory [out/flat] holding [a.txt] and [sub/b.txt]. *)
Definition tree : node := Dir [("a.txt", File); ("sub", Dir [("b.txt", File)])].

Definition fs1 : fsstate :=
  FsState {[ "out/flat/a.txt" := list_byte_of_string "abc";
             "out/flat/sub/b.txt" := list_byte_of_string EmptyString ]}
          {[ "out"; "out/flat"; "out/flat/sub" ]}.

(** The events of the crawl of [/flat] into [out/flat]. *)
Definition flat_events : list event :=
  (fetch_data session_get soup_tbody SEMAPHORE_LIMIT base_url
     "out/flat" "/flat" (add_dir "out/flat" fs0)).2.

End Sample.

(** ** Notions for the further properties *)

(** [p] starts with the text [prefix]. *)
Definition starts_with (prefix p : string) : Prop :=
  is_Some (strip_prefix prefix p).

(** [s] holds no slash. *)
Definition slash_free (s : string) : Prop :=
  ¬ In "/"%char (list_ascii_of_string s).

(** The two changes a crawl into [local_path] makes to the store: a
    directory is created where no file is, a file is opened and written
    where [open] succeeds, both at a path that starts with [local_path]. *)
Inductive crawl_step (local_path : string) : fsstate → fsstate → Prop :=
| crawl_makes_dir fs p :
    starts_with local_path p →
    files fs !! p = None →
    crawl_step local_path fs (add_dir p fs)
| crawl_writes_file fs p data :
    starts_with local_path p →
    open_ok fs p = true →
    crawl_step local_path fs (set_file p data fs).

(** Every run of [m] relates the store before to the store after by [R]. *)
Definition store_rel {A} (R : fsstate → fsstate → Prop) (m : io A) : Prop :=
  ∀ fs r fs' t, m fs = (r, fs', t) → R fs fs'.

(** A second remote repository: [/mixed] lists the file [a.txt], the
    directory [bad], whose page has no table body, the file [gone.txt],
    whose address does not connect, and the file [b.txt]. *)
Module Sample2.

Definition base_url : string := "https://gitea.example".

Definition soup_tbody (html : list byte) : option (list element) :=
  let text := string_of_list_byte html in
  if String.eqb text "page: mixed" then
    Some [Sample.file_tag "/mixed/src/branch/master/a.txt";
          Sample.dir_tag "/mixed/src/branch/master/bad";
          Sample.file_tag "/mixed/src/branch/master/gone.txt";
          Sample.file_tag "/mixed/src/branch/master/b.txt"]
  else if String.eqb text "page: calm" then
    Some [Sample.file_tag "/mixed/src/branch/master/a.txt";
          Sample.file_tag "/mixed/src/branch/master/gone.txt";
          Sample.file_tag "/mixed/src/branch/master/b.txt"]
  else None.

Definition session_get (address : string) : get_result :=
  if String.eqb address "https://gitea.example/mixed"
  then Sample.page "page: mixed"
  else if String.eqb address "https://gitea.example/calm"
  then Sample.page "page: calm"
  else if String.eqb address "https://gitea.example/mixed/raw/branch/master/a.txt"
  then Got (Response 200 (list_byte_of_string "abc"))
  else if String.eqb address "https://gitea.example/mixed/raw/branch/master/b.txt"
  then Got (Response 200 (list_byte_of_string "b"))
  else if String.eqb address "https://gitea.example/mixed/src/branch/master/bad"
  then Sample.page "no table here"
  else ConnectorError.

(** The loop body of [fetch_data] for a crawl into [out] with two free
    slots left. *)
Definition body : element → io unit :=
  fetch_element (save_file session_get 2 base_url)
    (fetch_data session_get soup_tbody 2 base_url) "out".

(** A store with a file and a directory outside [out/flat]. *)
Definition fs_other : fsstate :=
  FsState {[ "out/notes.txt" := list_byte_of_string "keep" ]}
          {[ "out"; "out/flat"; "out/old" ]}.

(** The crawl of the first sample's [/flat] into [out/flat] from
    [fs_other]. *)
Definition flat_run : outcome unit * fsstate * list event :=
  fetch_data Sample.session_get Sample.soup_tbody SEMAPHORE_LIMIT
    Sample.base_url "out/flat" "/flat" fs_other.

(** A store that holds only the first file of the sample directory
    [out/flat]. *)
Definition fs_partial : fsstate :=
  FsState {[ "out/flat/a.txt" := list_byte_of_string "abc" ]}
          {[ "out"; "out/flat"; "out/flat/sub" ]}.


End Sample2.

(** [pattern] occurs somewhere in [s]. *)
Definition occurs_in (pattern s : string) : Prop :=
  ∃ before after, s = before +:+ pattern +:+ after.

(** One pass of the inner loop of [calculate_sha256_for_directory]: the
    file at [file_path] is hashed and its row written to [p]. *)
Definition hash_and_write (p file_path : string) : io unit :=
  sha256_hash ← calculate_sha256 file_path ;
  writerow p [file_path; sha256_hash].

#[local] Unset Elimination Schemes.
(** A tree as a file system holds it: in every directory the names are
    distinct, not empty and without slash. *)
Inductive well_named : node → Prop :=
| well_named_file : well_named File
| well_named_dir entries :
    NoDup (map fst entries) →
    Forall (λ e, e.1 ≠ EmptyString ∧ slash_free e.1 ∧ well_named e.2)
      entries →
    well_named (Dir entries).
#[local] Set Elimination Schemes.

(** The paths of the regular files of a tree, relative to its root, in
    the order of the walk. *)
Fixpoint rel_paths (tree : node) : list string :=
  match tree with
  | File => []
  | Dir entries =>
      file_names entries
      ++ (fix below (es : list (string * node)) : list string :=
            match es with
            | [] => []
            | (name, sub) :: es' =>
                map (λ r, name +:+ "/" +:+ r) (rel_paths sub) ++ below es'
            end) entries
  end.

(** What [os.path.join(top, name)] puts before [name]. *)
Definition path_base (top : string) : string :=
  if String.eqb top EmptyString || ends_with_slash top then top
  else top +:+ "/".

Section Nesting.

Variable session_get : string → get_result.
Variable soup_tbody : list byte → option (list element).
Variable base_url : string.

(** [nests depth url]: the listing of [url] can be fetched and parsed and
    its first entry is a file or directory entry with a reference; for
    [S depth] that entry is a directory whose listing nests [depth]. *)
Inductive nests : nat → string → Prop :=
| nests_entry url response tags entry rest marker link :
    session_get (base_url +:+ url) = Got response →
    soup_tbody (content response) = Some tags →
    find_all CLASSES tags = entry :: rest →
    class_ entry !! 1%nat = Some marker →
    find_next_sibling entry = Some (Sibling (Some link)) →
    nests 0 url
| nests_directory depth url response tags entry rest marker link :
    session_get (base_url +:+ url) = Got response →
    soup_tbody (content response) = Some tags →
    find_all CLASSES tags = entry :: rest →
    class_ entry !! 1%nat = Some marker →
    marker ≠ "octicon-file" →
    find_next_sibling entry = Some (Sibling (Some link)) →
    nests depth link →
    nests (S depth) url.

End Nesting.
(** ** Downloading one file *)

Lemma set_file_set_file p a b fs :
  set_file p a (set_file p b fs) = set_file p a fs.
Proof. unfold set_file; simpl. by rewrite insert_insert_eq. Qed.

Lemma set_file_same p cur fs :
  files fs !! p = Some cur → set_file p cur fs = fs.
Proof.
  intros Hcur. destruct fs as [fl ds]; unfold set_file; simpl in *.
  by rewrite insert_id.
Qed.

Lemma files_set_file p data fs : files (set_file p data fs) !! p = Some data.
Proof. unfold set_file; simpl. apply lookup_insert_eq. Qed.

Lemma take_nil_inv {A} (n : nat) (l : list A) :
  take (S n) l = [] → l = [].
Proof. by destruct l. Qed.

(** The read loop stops, and leaves in the file what it held before
    followed by the whole body. *)
Lemma read_loop_appends (p : string) (rest : list byte) :
  ∀ (fs : fsstate) (cur : list byte),
    files fs !! p = Some cur →
    read_loop p rest fs = (Returned tt, set_file p (cur ++ rest) fs, []).
Proof.
  remember (length rest) as n eqn:Hn. revert rest Hn.
  induction n as [n IH] using lt_wf_ind.
  intros rest -> fs cur Hcur. rewrite read_loop_equation_1.
  destruct (inspect (take 1024 rest)) as [[|b data] Hpart]; simpl.
  - apply take_nil_inv in Hpart as ->. rewrite app_nil_r.
    by rewrite set_file_same.
  - unfold mbind, io_bind, file_write, modify_fs. rewrite Hcur; simpl.
    assert (Hlt : length (drop 1024 rest) < length rest).
    { rewrite length_drop. destruct rest; [done|simpl; lia]. }
    rewrite (IH _ Hlt (drop 1024 rest) eq_refl _ (cur ++ b :: data)
               (files_set_file _ _ _)).
    rewrite set_file_set_file, <- Hpart, <- app_assoc, take_drop.
    done.
Qed.

Section SaveFile.

Variable session_get : string → get_result.

(** With no free slot the call never gets past [async with semaphore]. *)
Lemma save_file_waits base_url url path fs :
  save_file session_get 0 base_url url path fs
  = (Waiting, fs, [EvEnter (SaveFile url path)]).
Proof. reflexivity. Qed.

(** What one call does once it holds a slot, by the result of the GET
    and of [open]. *)
Lemma save_file_unfold free base_url url path fs :
  save_file session_get (S free) base_url url path fs
  = match session_get (base_url +:+ url) with
    | ConnectorError =>
        (Returned tt, fs,
         save_events url path
           [EvGet (base_url +:+ url);
            EvLogError
              ("An error occurred while downloading the file: " +:+ url)])
    | OtherClientError =>
        (Raised ClientError, fs,
         save_events url path [EvGet (base_url +:+ url)])
    | Got response =>
        if open_ok fs (destination url path)
        then (Returned tt,
              set_file (destination url path) (content response) fs,
              save_events url path [EvGet (base_url +:+ url)])
        else (Raised OSError, fs,
              save_events url path [EvGet (base_url +:+ url)])
    end.
Proof.
  unfold save_file, coroutine, async_with, save_events.
  unfold mbind, io_bind, emit, raise, mret, io_ret; simpl.
  destruct (session_get (base_url +:+ url)) as [| |response]; try done.
  unfold open_write, destination.
  destruct (open_ok fs _) eqn:Hopen; [|done].
  rewrite (read_loop_appends _ _ _ [] (files_set_file _ _ _)).
  by rewrite set_file_set_file.
Qed.

End SaveFile.

Section SaveFileClaims.

Variable session_get : string → get_result.

Lemma save_file_connector_error free base_url url path fs :
  session_get (base_url +:+ url) = ConnectorError →
  ∃ t, save_file session_get (S free) base_url url path fs
       = (Returned tt, fs, t).
Proof. intros Hget. rewrite save_file_unfold, Hget. eauto. Qed.

Lemma save_file_other_error free base_url url path fs :
  session_get (base_url +:+ url) = OtherClientError →
  ∃ t, save_file session_get (S free) base_url url path fs
       = (Raised ClientError, fs, t).
Proof. intros Hget. rewrite save_file_unfold, Hget. eauto. Qed.

Lemma save_file_got free base_url url path fs response :
  session_get (base_url +:+ url) = Got response →
  open_ok fs (destination url path) = true →
  ∃ t, save_file session_get (S free) base_url url path fs
       = (Returned tt,
          set_file (destination url path) (content response) fs, t).
Proof. intros Hget Hopen. rewrite save_file_unfold, Hget, Hopen. eauto. Qed.

(** C3: when the GET of [save_file] raises a connection error the call
    returns and the local file system is what it was, so no file, partial
    or empty, exists at the destination that did not exist before; when the
    GET returns a response and the destination can be opened, the call
    returns and the file system differs from the old one in exactly one
    file, the destination, which holds the body. *)
Theorem save_file_connection_error_leaves_no_file
    (free : nat) (base_url url path : string) (fs : fsstate) :
  (session_get (base_url +:+ url) = ConnectorError →
   ∃ t, save_file session_get (S free) base_url url path fs
        = (Returned tt, fs, t))
  ∧ (∀ response,
       session_get (base_url +:+ url) = Got response →
       open_ok fs (destination url path) = true →
       ∃ fs' t,
         save_file session_get (S free) base_url url path fs
         = (Returned tt, fs', t)
         ∧ dirs fs' = dirs fs
         ∧ files fs'
           = <[destination url path := content response]> (files fs)).
Proof.
  split.
  - apply save_file_connector_error.
  - intros response Hget Hopen.
    destruct (save_file_got free _ _ _ _ _ Hget Hopen) as [t Ht].
    eexists _, t. split; [exact Ht|]. done.
Qed.

(** C9: [save_file] never looks at the status of the response: whenever
    the GET returns a response, with status 404 as with status 200, and the
    destination can be opened, the call returns and the destination holds
    the body of the response.  Only the connector error is caught: any
    other client error leaves the call by an exception. *)
Theorem save_file_stores_body_whatever_status
    (free : nat) (base_url url path : string) (fs : fsstate) :
  (∀ code body,
     session_get (base_url +:+ url) = Got (Response code body) →
     open_ok fs (destination url path) = true →
     ∃ fs' t,
       save_file session_get (S free) base_url url path fs
       = (Returned tt, fs', t)
       ∧ files fs' !! destination url path = Some body)
  ∧ (session_get (base_url +:+ url) = OtherClientError →
     ∃ t, save_file session_get (S free) base_url url path fs
          = (Raised ClientError, fs, t)).
Proof.
  split.
  - intros code body Hget Hopen.
    destruct (save_file_got free _ _ _ _ _ Hget Hopen) as [t Ht].
    eexists _, t. split; [exact Ht|]. apply files_set_file.
  - apply save_file_other_error.
Qed.

End SaveFileClaims.

Lemma save_file_connection_error_leaves_no_file_witness :
  (∃ t, save_file Sample.session_get 3 Sample.base_url "/gone/raw/branch/master/x"
          "out" Sample.fs0 = (Returned tt, Sample.fs0, t))
  ∧ (∃ fs' t,
       save_file Sample.session_get 3 Sample.base_url
         "/flat/raw/branch/master/a.txt" "out" Sample.fs0
       = (Returned tt, fs', t)
       ∧ dirs fs' = dirs Sample.fs0
       ∧ files fs'
         = <[destination "/flat/raw/branch/master/a.txt" "out"
             := list_byte_of_string "abc"]> (files Sample.fs0)).
Proof.
  split.
  - apply (save_file_connection_error_leaves_no_file Sample.session_get 2).
    reflexivity.
  - apply (proj2 (save_file_connection_error_leaves_no_file
                    Sample.session_get 2 Sample.base_url
                    "/flat/raw/branch/master/a.txt" "out" Sample.fs0)
             (Response 200 (list_byte_of_string "abc")));
      vm_compute; reflexivity.
Defined.

Lemma save_file_stores_body_whatever_status_witness :
  (∃ fs' t,
     save_file Sample.session_get 3 Sample.base_url
       "/flat/raw/branch/master/b.txt" "out" Sample.fs0
     = (Returned tt, fs', t)
     ∧ files fs' !! destination "/flat/raw/branch/master/b.txt" "out"
       = Some (list_byte_of_string "Not found"))
  ∧ (∃ t, save_file Sample.session_get 3 Sample.base_url "/reset" "out"
            Sample.fs0 = (Raised ClientError, Sample.fs0, t)).
Proof.
  split.
  - apply (proj1 (save_file_stores_body_whatever_status
                    Sample.session_get 2 Sample.base_url
                    "/flat/raw/branch/master/b.txt" "out" Sample.fs0)
             404%nat (list_byte_of_string "Not found"));
      vm_compute; reflexivity.
  - apply (proj2 (save_file_stores_body_whatever_status
                    Sample.session_get 2 Sample.base_url "/reset" "out"
                    Sample.fs0)).
    reflexivity.
Defined.

(** ** The semaphore bounds the operations in flight *)

Lemma active_app t1 t2 : active (t1 ++ t2) = (active t1 + active t2)%Z.
Proof. induction t1 as [|e t1 IH]; simpl; lia. Qed.

Lemma within_app cur n t1 t2 :
  within cur n (t1 ++ t2)
  ↔ within cur n t1 ∧ within (cur + active t1) n t2.
Proof.
  revert cur. induction t1 as [|e t1 IH]; intros cur; simpl.
  - rewrite Z.add_0_r. tauto.
  - rewrite IH, Z.add_assoc. tauto.
Qed.

Lemma within_range cur n t :
  (0 ≤ cur ≤ n)%Z → within cur n t → (0 ≤ cur + active t ≤ n)%Z.
Proof.
  revert cur. induction t as [|e t IH]; intros cur Hcur Hw; simpl in *.
  - lia.
  - destruct Hw as (Hr & _ & Hw). specialize (IH _ Hr Hw). lia.
Qed.

(** [within] read as a statement about every instant of the run. *)
Lemma within_prefix n t :
  (0 ≤ n)%Z → within 0 n t →
  ∀ t1 t2, t = t1 ++ t2 →
    (0 ≤ active t1 ≤ n)%Z
    ∧ (∀ a t3, t2 = EvGet a :: t3 → (1 ≤ active t1)%Z).
Proof.
  intros Hn Hin t1 t2 ->. apply within_app in Hin as [H1 H2].
  rewrite Z.add_0_l in H2. split.
  - apply (within_range 0 n t1) in H1; lia.
  - intros a t3 ->. simpl in H2. destruct H2 as (_ & Hget & _).
    by apply Hget.
Qed.

Lemma within_slots_lower {A} lo lo' free (m : io A) :
  (lo ≤ lo')%Z → within_slots lo free m → within_slots lo' free m.
Proof. intros Hle Hm cur n fs r fs' t Hcur. apply Hm. lia. Qed.

Lemma silent_within_slots {A} lo free (m : io A) : silent m → within_slots lo free m.
Proof.
  intros Hm cur n fs r fs' t _ _ Hrun. specialize (Hm fs).
  rewrite Hrun in Hm; simpl in Hm; subst t. done.
Qed.

Lemma within_slots_bind {A B} lo free (m : io A) (k : A → io B) :
  within_slots lo free m → (∀ a, within_slots lo free (k a)) → within_slots lo free (m ≫= k).
Proof.
  intros Hm Hk cur n fs r fs' t Hcur Hn. unfold mbind, io_bind.
  destruct (m fs) as [[ra fs1] t1] eqn:Hrun.
  destruct (Hm cur n _ _ _ _ Hcur Hn Hrun) as [Hw1 Hb1].
  destruct ra as [a|e|].
  - destruct (k a fs1) as [[rb fs2] t2] eqn:Hrun2. intros [= <- <- <-].
    destruct (Hk a cur n _ _ _ _ Hcur Hn Hrun2) as [Hw2 Hb2].
    split.
    + apply within_app. rewrite Hb1 by done. by rewrite Z.add_0_r.
    + intros Hr. rewrite active_app, Hb1, Hb2 by done. done.
  - intros [= <- <- <-]. split; [done|intros _; by apply Hb1].
  - intros [= <- <- <-]. split; [done|by intros []].
Qed.

Lemma within_slots_emit_get address free : within_slots 1 free (emit (EvGet address)).
Proof.
  intros cur n fs r fs' t Hcur Hn [= <- <- <-]. simpl.
  repeat split; lia.
Qed.

Lemma within_slots_emit_log lo msg free : (0 ≤ lo)%Z → within_slots lo free (emit (EvLogError msg)).
Proof.
  intros Hlo cur n fs r fs' t Hcur Hn [= <- <- <-]. simpl.
  repeat split; lia || done.
Qed.

Lemma within_slots_async_with {A} free (body : nat → io A) :
  (∀ free', free = S free' → within_slots 1 free' (body free')) →
  within_slots 0 free (async_with free body).
Proof.
  intros Hbody cur n fs r fs' t Hcur Hn. unfold async_with.
  destruct free as [|free'].
  - intros [= <- <- <-]. done.
  - destruct (body free' fs) as [[rb fs1] t1] eqn:Hrun.
    assert (Hc1 : (1 ≤ cur + 1)%Z) by lia.
    assert (Hn1 : (cur + 1 + Z.of_nat free' ≤ n)%Z) by lia.
    destruct (Hbody free' eq_refl (cur + 1)%Z n _ _ _ _ Hc1 Hn1 Hrun)
      as [Hw Hb].
    assert (Hrel : rb ≠ Waiting →
              within cur n (EvAcquire :: t1 ++ [EvRelease])
              ∧ active (EvAcquire :: t1 ++ [EvRelease]) = 0%Z).
    { intros Hr. specialize (Hb Hr). simpl. rewrite active_app, Hb. simpl.
      split; [|lia]. split; [lia|]. split; [done|].
      apply within_app. split; [done|]. rewrite Hb. simpl.
      repeat split; lia || done. }
    destruct rb as [a|e|]; intros [= <- <- <-].
    + destruct Hrel as [? ?]; done.
    + destruct Hrel as [? ?]; done.
    + split; [|done]. simpl. split; [lia|]. split; [done|]. done.
Qed.

Lemma within_slots_coroutine {A} lo free c (body : io A) :
  (0 ≤ lo)%Z → within_slots lo free body → within_slots lo free (coroutine c body).
Proof.
  intros Hlo Hbody cur n fs r fs' t Hcur Hn. unfold coroutine.
  destruct (body fs) as [[rb fs1] t1] eqn:Hrun.
  destruct (Hbody cur n _ _ _ _ Hcur Hn Hrun) as [Hw Hb].
  assert (Hrel : rb ≠ Waiting →
            within cur n (EvEnter c :: t1 ++ [EvLeave c])
            ∧ active (EvEnter c :: t1 ++ [EvLeave c]) = 0%Z).
  { intros Hr. specialize (Hb Hr). simpl. rewrite active_app, Hb. simpl.
    rewrite Z.add_0_r. split; [|done]. split; [lia|]. split; [done|].
    apply within_app. split; [done|]. rewrite Hb. simpl.
    repeat split; lia || done. }
  destruct rb as [a|e|]; intros [= <- <- <-].
  - destruct Hrel as [? ?]; done.
  - destruct Hrel as [? ?]; done.
  - split; [|done]. simpl. rewrite Z.add_0_r.
    split; [lia|]. split; [done|]. done.
Qed.

Lemma within_slots_for_each {A} lo free (body : A → io unit) (l : list A) :
  (∀ x, within_slots lo free (body x)) → within_slots lo free (for_each body l).
Proof.
  intros Hbody. induction l as [|x l IH]; simpl.
  - by apply silent_within_slots.
  - apply within_slots_bind; [apply Hbody|]. intros _. exact IH.
Qed.

Lemma silent_ret {A} (a : A) : silent (mret a : io A).
Proof. done. Qed.

Lemma silent_raise {A} e : silent (raise e : io A).
Proof. done. Qed.

Lemma silent_bind {A B} (m : io A) (k : A → io B) :
  silent m → (∀ a, silent (k a)) → silent (m ≫= k).
Proof.
  intros Hm Hk fs. specialize (Hm fs). unfold mbind, io_bind.
  destruct (m fs) as [[[a|e|] fs1] t1]; simpl in *; subst; try done.
  specialize (Hk a fs1). by destruct (k a fs1) as [[rb fs2] t2].
Qed.

Lemma silent_for_each {A} (body : A → io unit) (l : list A) :
  (∀ x, silent (body x)) → silent (for_each body l).
Proof.
  intros Hbody. induction l as [|x l IH]; simpl; [done|].
  apply silent_bind; [apply Hbody|]. by intros _.
Qed.

Lemma silent_os_makedirs p : silent (os_makedirs p).
Proof. intros fs. unfold os_makedirs. by destruct (files fs !! p). Qed.

Lemma silent_open_write p : silent (open_write p).
Proof. intros fs. unfold open_write. by destruct (open_ok fs p). Qed.

Lemma silent_file_write p data : silent (file_write p data).
Proof. done. Qed.

Lemma silent_read_loop p rest : silent (read_loop p rest).
Proof.
  remember (length rest) as n eqn:Hn. revert rest Hn.
  induction n as [n IH] using lt_wf_ind.
  intros rest -> fs. rewrite read_loop_equation_1.
  destruct (inspect (take 1024 rest)) as [[|b data] Hpart]; simpl; [done|].
  apply (silent_bind (file_write p (b :: data))); [done|].
  intros _ fs1. eapply IH; [|reflexivity].
  rewrite length_drop. destruct rest; [done|simpl; lia].
Qed.

Lemma silent_calculate_sha256 p : silent (calculate_sha256 p).
Proof. intros fs. unfold calculate_sha256. by destruct (files fs !! p). Qed.

Lemma silent_calculate_sha256_for_directory tree directory path_to_result :
  silent (calculate_sha256_for_directory tree directory path_to_result).
Proof.
  unfold calculate_sha256_for_directory.
  apply silent_bind; [apply silent_open_write|]. intros _.
  apply silent_bind; [done|]. intros _.
  apply silent_for_each. intros [[root ds] fls].
  apply silent_for_each. intros file_name.
  apply silent_bind; [apply silent_calculate_sha256|]. by intros h.
Qed.

Section Slots.

Variable session_get : string → get_result.
Variable soup_tbody : list byte → option (list element).

Lemma save_file_within_slots free base_url url path :
  within_slots 0 free (save_file session_get free base_url url path).
Proof.
  unfold save_file. apply within_slots_coroutine; [done|].
  apply within_slots_async_with. intros free' _.
  apply within_slots_bind; [apply within_slots_emit_get|]. intros _.
  destruct (session_get (base_url +:+ url)).
  - apply within_slots_bind; [by apply within_slots_emit_log|]. intros _.
    by apply silent_within_slots.
  - by apply silent_within_slots.
  - apply silent_within_slots.
    apply silent_bind; [apply silent_open_write|]. intros _.
    apply silent_read_loop.
Qed.

Lemma fetch_element_within_slots lo free save fetch local_path element :
  (∀ u p, within_slots lo free (save u p)) →
  (∀ p u, within_slots lo free (fetch p u)) →
  within_slots lo free (fetch_element save fetch local_path element).
Proof.
  intros Hsave Hfetch. unfold fetch_element.
  destruct (class_ element !! 1%nat) as [marker|];
    [|by apply silent_within_slots].
  destruct (String.eqb marker _);
    (destruct (find_next_sibling element) as [[[link|]]|];
     [|by apply silent_within_slots..]).
  - apply Hsave.
  - apply within_slots_bind; [apply silent_within_slots, silent_os_makedirs|].
    intros _. apply Hfetch.
Qed.

(** One unfolding of the recursive coroutine. *)
Lemma fetch_data_unfold free base_url local_path url :
  fetch_data session_get soup_tbody free base_url local_path url
  = coroutine (FetchData local_path url) (
      async_with free (λ free',
        emit (EvGet (base_url +:+ url)) ;;
        match session_get (base_url +:+ url) with
        | ConnectorError =>
            emit (EvLogError
                    ("An error occurred while parsing the url: " +:+ url)) ;;
            mret tt
        | OtherClientError => raise ClientError
        | Got response =>
            match soup_tbody (content response) with
            | None => raise AttributeError
            | Some tags =>
                for_each
                  (fetch_element (save_file session_get free' base_url)
                     (fetch_data session_get soup_tbody free' base_url)
                     local_path)
                  (find_all CLASSES tags)
            end
        end)).
Proof. by destruct free. Qed.

Lemma fetch_data_within_slots free :
  ∀ base_url local_path url,
    within_slots 0 free (fetch_data session_get soup_tbody free base_url local_path url).
Proof.
  induction free as [|free IH]; intros base_url local_path url;
    rewrite fetch_data_unfold.
  - apply within_slots_coroutine; [done|]. apply within_slots_async_with. done.
  - apply within_slots_coroutine; [done|].
    apply (within_slots_async_with (S free)). intros free' [= <-].
    apply within_slots_bind; [apply within_slots_emit_get|]. intros _.
    destruct (session_get (base_url +:+ url)) as [| |response].
    + apply within_slots_bind; [by apply within_slots_emit_log|]. intros _.
      by apply silent_within_slots.
    + by apply silent_within_slots.
    + destruct (soup_tbody (content response)) as [tags|];
        [|by apply silent_within_slots].
      apply within_slots_for_each. intros element.
      apply fetch_element_within_slots.
      * intros u p. eapply within_slots_lower; [|apply save_file_within_slots]. lia.
      * intros p u. eapply within_slots_lower; [|apply IH]. lia.
Qed.

End Slots.

Section MainSlots.

Variable session_get : string → get_result.
Variable soup_tbody : list byte → option (list element).
Variable scandir_tree : fsstate → string → node.

Lemma main_within_slots base_url project_url path_prefix :
  within_slots 0 SEMAPHORE_LIMIT
    (main session_get soup_tbody scandir_tree base_url project_url path_prefix).
Proof.
  unfold main.
  apply within_slots_bind; [apply silent_within_slots, silent_os_makedirs|]. intros _.
  apply within_slots_bind; [apply fetch_data_within_slots|]. intros _.
  apply within_slots_bind; [by apply silent_within_slots|]. intros fs.
  apply silent_within_slots, silent_calculate_sha256_for_directory.
Qed.

(** C6: at every instant of a run of [main], that is after every prefix
    [t1] of its events, the number of open [async with semaphore] blocks,
    listing fetches and file downloads together, lies between 0 and
    [SEMAPHORE_LIMIT] = 3, and every GET is sent from inside such a
    block. *)
Theorem main_never_exceeds_semaphore_limit
    (base_url project_url path_prefix : string) (fs : fsstate)
    (t1 t2 : list event) :
  (main session_get soup_tbody scandir_tree
     base_url project_url path_prefix fs).2 = t1 ++ t2 →
  (0 ≤ active t1 ≤ Z.of_nat SEMAPHORE_LIMIT)%Z
  ∧ (∀ address t3, t2 = EvGet address :: t3 → (1 ≤ active t1)%Z).
Proof.
  intros Hrun.
  destruct (main _ _ _ base_url project_url path_prefix fs)
    as [[r fs'] t] eqn:Hmain.
  simpl in Hrun.
  destruct (main_within_slots base_url project_url path_prefix 0%Z
              (Z.of_nat SEMAPHORE_LIMIT) fs r fs' t) as [Hw _];
    [lia|lia|exact Hmain|].
  eapply within_prefix; [|exact Hw|exact Hrun]. lia.
Qed.

End MainSlots.

Lemma main_never_exceeds_semaphore_limit_witness :
  let t := (main Sample.session_get Sample.soup_tbody Sample.scandir_tree
              Sample.base_url "/flat" "out" Sample.fs0).2 in
  (0 ≤ active (take 5 t) ≤ Z.of_nat SEMAPHORE_LIMIT)%Z
  ∧ (∀ address t3, drop 5 t = EvGet address :: t3 → (1 ≤ active (take 5 t))%Z).
Proof.
  intros t.
  apply (main_never_exceeds_semaphore_limit Sample.session_get
           Sample.soup_tbody Sample.scandir_tree Sample.base_url "/flat" "out"
           Sample.fs0 (take 5 t) (drop 5 t)).
  vm_compute. reflexivity.
Defined.

(** In the crawl of a listing with two files the slot of the listing fetch
    is still held while the first download sends its GET, and is released
    only after the last download has finished. *)
Example listing_slot_held_during_downloads :
  active (take 5 Sample.flat_events) = 2%Z
  ∧ Sample.flat_events !! 5%nat
    = Some (EvGet "https://gitea.example/flat/raw/branch/master/a.txt")
  ∧ drop 13 Sample.flat_events
    = [EvRelease; EvLeave (FetchData "out/flat" "/flat")].
Proof. vm_compute. repeat split. Qed.

(** C1: with the listing fetch of every directory still holding its slot
    while its entries are awaited, a repository with a file two directories
    below the root uses up the three slots: [main] enters [save_file] for
    that file with three blocks open, none released, and waits for ever. *)
Theorem main_waits_forever_two_directories_down :
  let run := main Sample.session_get Sample.soup_tbody Sample.scandir_tree
               Sample.base_url "/deep" "out" Sample.fs0 in
  run.1.1 = Waiting
  ∧ run.2
    = [EvEnter (FetchData "out/deep" "/deep"); EvAcquire;
       EvGet "https://gitea.example/deep";
       EvEnter (FetchData "out/deep/d1" "/deep/src/branch/master/d1");
       EvAcquire;
       EvGet "https://gitea.example/deep/src/branch/master/d1";
       EvEnter (FetchData "out/deep/d1/d2" "/deep/src/branch/master/d1/d2");
       EvAcquire;
       EvGet "https://gitea.example/deep/src/branch/master/d1/d2";
       EvEnter (SaveFile "/deep/raw/branch/master/d1/d2/f.txt" "out/deep/d1/d2")]
  ∧ active run.2 = Z.of_nat SEMAPHORE_LIMIT
  ∧ files run.1.2 = ∅.
Proof. vm_compute. repeat split. Qed.

(** ** The entries of a listing are awaited one by one *)

Lemma coroutine_returned {A} c (body : io A) fs a fs' t :
  coroutine c body fs = (Returned a, fs', t) →
  ∃ inner, body fs = (Returned a, fs', inner)
           ∧ t = EvEnter c :: inner ++ [EvLeave c].
Proof.
  unfold coroutine. destruct (body fs) as [[[b|e|] fs1] t1]; intros [= <- <- <-].
  eauto.
Qed.

Lemma async_with_returned {A} free (body : nat → io A) fs a fs' t :
  async_with free body fs = (Returned a, fs', t) →
  ∃ free' inner, free = S free'
                 ∧ body free' fs = (Returned a, fs', inner)
                 ∧ t = EvAcquire :: inner ++ [EvRelease].
Proof.
  unfold async_with. destruct free as [|free']; [done|].
  destruct (body free' fs) as [[[b|e|] fs1] t1] eqn:Hbody;
    intros [= <- <- <-].
  eauto 10.
Qed.

Lemma bind_returned {A B} (m : io A) (k : A → io B) fs b fs' t :
  (m ≫= k) fs = (Returned b, fs', t) →
  ∃ a fs1 t1 t2, m fs = (Returned a, fs1, t1)
                 ∧ k a fs1 = (Returned b, fs', t2) ∧ t = t1 ++ t2.
Proof.
  unfold mbind, io_bind. destruct (m fs) as [[[a|e|] fs1] t1]; [|done..].
  destruct (k a fs1) as [[rb fs2] t2] eqn:Hk. intros [= -> <- <-].
  eauto 10.
Qed.

Lemma bind_run_silent {A B} (m : io A) (k : A → io B) fs a fs1 res :
  m fs = (Returned a, fs1, []) →
  k a fs1 = res →
  (m ≫= k) fs = res.
Proof.
  intros Hm Hk. unfold mbind, io_bind. rewrite Hm, Hk.
  by destruct res as [[r fs2] t2].
Qed.

Lemma for_each_cons_run {A} (body : A → io unit) x l fs fs1 t1 r fs2 t2 :
  body x fs = (Returned tt, fs1, t1) →
  for_each body l fs1 = (r, fs2, t2) →
  for_each body (x :: l) fs = (r, fs2, t1 ++ t2).
Proof.
  intros Hx Hl. cbn [for_each]. unfold mbind, io_bind. by rewrite Hx, Hl.
Qed.

(** A loop that returns has run its body on every item, in order. *)
Lemma for_each_returned {A} (body : A → io unit) (l : list A) :
  ∀ fs fs' t,
    for_each body l fs = (Returned tt, fs', t) →
    ∃ parts, t = concat parts
             ∧ Forall2 (λ x part, ∃ fs1 fs2, body x fs1 = (Returned tt, fs2, part))
                 l parts.
Proof.
  induction l as [|x l IH]; intros fs fs' t; simpl.
  - intros [= <- <-]. exists []. split; [done|constructor].
  - intros Hrun. apply bind_returned in Hrun
      as ([] & fs1 & t1 & t2 & Hx & Hl & ->).
    destruct (IH _ _ _ Hl) as (parts & -> & Hall).
    exists (t1 :: parts). split; [done|]. constructor; eauto.
Qed.

Section Sequential.

Variable session_get : string → get_result.
Variable soup_tbody : list byte → option (list element).

(** An entry whose processing returns was handed to its coroutine, and
    its events run from the coroutine's entry to its exit. *)
Lemma fetch_element_returned free base_url local_path element fs fs' t :
  fetch_element (save_file session_get free base_url)
    (fetch_data session_get soup_tbody free base_url) local_path element fs
  = (Returned tt, fs', t) →
  ∃ c inner, entry_coroutine local_path element = Some c
             ∧ t = EvEnter c :: inner ++ [EvLeave c].
Proof.
  unfold fetch_element, entry_coroutine.
  destruct (class_ element !! 1%nat) as [marker|]; [|done].
  destruct (find_next_sibling element) as [[[link|]]|];
    destruct (String.eqb marker _); try done.
  - intros Hrun. apply coroutine_returned in Hrun as (inner & _ & ->).
    eauto.
  - intros Hrun. apply bind_returned in Hrun
      as ([] & fs1 & t1 & t2 & Hmk & Hrun & ->).
    pose proof (silent_os_makedirs
                  (os_path_join local_path (last_segment link)) fs) as Hs.
    rewrite Hmk in Hs; simpl in Hs; subst t1.
    rewrite fetch_data_unfold in Hrun.
    apply coroutine_returned in Hrun as (inner & _ & ->). eauto.
Qed.

(** C2, as the code has it: the entries of one listing are awaited one by
    one, in listing order.  When the call for a directory returns, its
    events are the listing fetch, then for each entry in turn the events of
    that entry's coroutine from its entry to its exit, sub-work included,
    and only then the release of the slot and the exit of the call. *)
Theorem fetch_data_awaits_entries_in_turn
    (free : nat) (base_url local_path url : string) (fs fs' : fsstate)
    (t : list event) (response : response) (tags : list element) :
  session_get (base_url +:+ url) = Got response →
  soup_tbody (content response) = Some tags →
  fetch_data session_get soup_tbody free base_url local_path url fs
  = (Returned tt, fs', t) →
  ∃ parts : list (list event),
    t = [EvEnter (FetchData local_path url); EvAcquire;
         EvGet (base_url +:+ url)]
        ++ concat parts
        ++ [EvRelease; EvLeave (FetchData local_path url)]
    ∧ Forall2
        (λ entry part,
           ∃ c inner, entry_coroutine local_path entry = Some c
                      ∧ part = EvEnter c :: inner ++ [EvLeave c])
        (find_all CLASSES tags) parts.
Proof.
  intros Hget Hsoup Hrun. rewrite fetch_data_unfold in Hrun.
  apply coroutine_returned in Hrun as (t0 & Hrun & ->).
  apply async_with_returned in Hrun as (free' & t1 & -> & Hrun & ->).
  apply bind_returned in Hrun as ([] & fs1 & t2 & t3 & Hemit & Hrun & ->).
  injection Hemit as <- <-. rewrite Hget, Hsoup in Hrun.
  apply for_each_returned in Hrun as (parts & -> & Hall).
  exists parts. split.
  - simpl. by rewrite <- !app_assoc.
  - eapply Forall2_impl; [exact Hall|].
    intros entry part (fs2 & fs3 & Hentry).
    by apply fetch_element_returned in Hentry.
Qed.

End Sequential.

Lemma fetch_data_awaits_entries_in_turn_witness :
  ∃ parts : list (list event),
    Sample.flat_events
    = [EvEnter (FetchData "out/flat" "/flat"); EvAcquire;
       EvGet (Sample.base_url +:+ "/flat")]
      ++ concat parts
      ++ [EvRelease; EvLeave (FetchData "out/flat" "/flat")]
    ∧ Forall2
        (λ entry part,
           ∃ c inner, entry_coroutine "out/flat" entry = Some c
                      ∧ part = EvEnter c :: inner ++ [EvLeave c])
        (find_all CLASSES
           [Sample.file_tag "/flat/src/branch/master/a.txt";
            Sample.file_tag "/flat/src/branch/master/b.txt"])
        parts.
Proof.
  apply (fetch_data_awaits_entries_in_turn Sample.session_get
           Sample.soup_tbody SEMAPHORE_LIMIT Sample.base_url "out/flat" "/flat"
           (add_dir "out/flat" Sample.fs0)
           (fetch_data Sample.session_get Sample.soup_tbody SEMAPHORE_LIMIT
              Sample.base_url "out/flat" "/flat"
              (add_dir "out/flat" Sample.fs0)).1.2
           Sample.flat_events
           (Response 200 (list_byte_of_string "page: flat")));
    vm_compute; reflexivity.
Defined.

Lemma entered_before_left_nil a b : ¬ entered_before_left [] a b.
Proof. intros (t1 & t2 & t3 & Heq). by destruct t1. Qed.

Lemma entered_before_left_cons e t a b :
  entered_before_left (e :: t) a b →
  (e = EvEnter b ∧ EvLeave a ∈ t) ∨ entered_before_left t a b.
Proof.
  intros (t1 & t2 & t3 & Heq). destruct t1 as [|e1 t1]; simpl in Heq.
  - injection Heq as -> ->. left. split; [done|].
    apply elem_of_app. right. apply elem_of_cons. by left.
  - injection Heq as -> ->. right. by exists t1, t2, t3.
Qed.

(** C2 as stated fails: in the crawl of a listing with the two files
    [a.txt] and [b.txt], the download of [b.txt] is not entered before the
    download of [a.txt] has finished. *)
Lemma second_download_waits_for_first :
  ¬ entered_before_left Sample.flat_events
      (SaveFile "/flat/raw/branch/master/a.txt" "out/flat")
      (SaveFile "/flat/raw/branch/master/b.txt" "out/flat").
Proof.
  replace Sample.flat_events with
    [EvEnter (FetchData "out/flat" "/flat"); EvAcquire;
     EvGet "https://gitea.example/flat";
     EvEnter (SaveFile "/flat/raw/branch/master/a.txt" "out/flat");
     EvAcquire; EvGet "https://gitea.example/flat/raw/branch/master/a.txt";
     EvRelease;
     EvLeave (SaveFile "/flat/raw/branch/master/a.txt" "out/flat");
     EvEnter (SaveFile "/flat/raw/branch/master/b.txt" "out/flat");
     EvAcquire; EvGet "https://gitea.example/flat/raw/branch/master/b.txt";
     EvRelease;
     EvLeave (SaveFile "/flat/raw/branch/master/b.txt" "out/flat");
     EvRelease; EvLeave (FetchData "out/flat" "/flat")]
    by (vm_compute; reflexivity).
  intros Hover.
  repeat (apply entered_before_left_cons in Hover as [[Heq Hin]|Hover];
          [try discriminate|]).
  - rewrite !elem_of_cons, elem_of_nil in Hin. intuition discriminate.
  - by apply entered_before_left_nil in Hover.
Qed.

(** ** The path rewrite *)

Lemma strip_prefix_length q s rest :
  strip_prefix q s = Some rest →
  String.length s = (String.length q + String.length rest)%nat.
Proof.
  revert s. induction q as [|a q IH]; intros s; simpl.
  - by intros [= ->].
  - destruct s as [|b s]; [done|]. destruct (Ascii.eqb a b); [|done].
    intros Hq. simpl. by rewrite (IH _ Hq).
Qed.

(** Skipping the rest of a match lands behind it. *)
Lemma re_sub_from_skip pattern repl q s rest :
  strip_prefix q s = Some rest →
  re_sub_from (String.length q) pattern repl s = re_sub_from 0 pattern repl rest.
Proof.
  revert s. induction q as [|a q IH]; intros s; simpl.
  - by intros [= ->].
  - destruct s as [|b s]; [done|]. destruct (Ascii.eqb a b); [|done].
    intros Hq. simpl. by apply IH.
Qed.

Lemma re_sub_Substituted p0 ptl repl s :
  Substituted (String p0 ptl) repl s (re_sub (String p0 ptl) repl s).
Proof.
  unfold re_sub. remember (String.length s) as n eqn:Hn. revert s Hn.
  induction n as [n IH] using lt_wf_ind. intros s ->.
  destruct s as [|c s]; [constructor|].
  cbn [re_sub_from].
  destruct (strip_prefix (String p0 ptl) (String c s)) as [rest|] eqn:Hhit.
  - pose proof (strip_prefix_length _ _ _ Hhit) as Hlen.
    simpl in Hhit. destruct (Ascii.eqb p0 c) eqn:Hc; [|done].
    replace (String.length (String p0 ptl) - 1)%nat with (String.length ptl)
      by (simpl; lia).
    rewrite (re_sub_from_skip _ _ _ _ _ Hhit).
    eapply Substituted_hit.
    + simpl. rewrite Hc. exact Hhit.
    + eapply IH; [|reflexivity]. simpl in Hlen |- *. lia.
  - apply Substituted_miss; [exact Hhit|].
    eapply IH; [|reflexivity]. simpl. lia.
Qed.

(** For a pattern that is not empty the substitution has one result. *)
Lemma Substituted_unique p0 ptl repl s r1 r2 :
  Substituted (String p0 ptl) repl s r1 →
  Substituted (String p0 ptl) repl s r2 →
  r1 = r2.
Proof.
  intros H1. revert r2.
  induction H1 as [|s rest r Hhit _ IH|c s r Hmiss _ IH]; intros r2 H2.
  - inversion H2 as [|s' rest' r' Hhit'|]; [done|]. done.
  - inversion H2 as [|s' rest' r' Hhit' Hrest'|c' s' r' Hmiss' Hrest'];
      subst.
    + done.
    + rewrite Hhit in Hhit'. injection Hhit' as <-. by rewrite (IH _ Hrest').
    + congruence.
  - inversion H2 as [|s' rest' r' Hhit' Hrest'|c' s' r' Hmiss' Hrest'];
      subst.
    + congruence.
    + by rewrite (IH _ Hrest').
Qed.

Section Entries.

Variable session_get : string → get_result.

Lemma save_file_sends_get free base_url url path fs :
  (save_file session_get (S free) base_url url path fs).2 !! 2%nat
  = Some (EvGet (base_url +:+ url)).
Proof.
  rewrite save_file_unfold.
  destruct (session_get (base_url +:+ url)); [done..|].
  by destruct (open_ok fs _).
Qed.

Lemma fetch_element_file save fetch local_path element link :
  class_ element !! 1%nat = Some "octicon-file" →
  find_next_sibling element = Some (Sibling (Some link)) →
  fetch_element save fetch local_path element
  = save (re_sub PATTERN_TO_FIND PATTERN_TO_SUB link) local_path.
Proof. intros Hclass Hnext. unfold fetch_element. by rewrite Hclass, Hnext. Qed.

Lemma fetch_element_directory save fetch local_path element marker link :
  class_ element !! 1%nat = Some marker →
  marker ≠ "octicon-file" →
  find_next_sibling element = Some (Sibling (Some link)) →
  fetch_element save fetch local_path element
  = (os_makedirs (os_path_join local_path (last_segment link)) ;;
     fetch (os_path_join local_path (last_segment link)) link).
Proof.
  intros Hclass Hne Hnext. unfold fetch_element. rewrite Hclass, Hnext.
  apply String.eqb_neq in Hne. simpl. by rewrite Hne.
Qed.

Lemma fetch_element_one_class save fetch local_path element :
  (length (class_ element) < 2)%nat →
  fetch_element save fetch local_path element = raise IndexError.
Proof.
  intros Hlen. unfold fetch_element.
  by rewrite (lookup_ge_None_2 (class_ element) 1) by lia.
Qed.

Lemma fetch_element_no_sibling save fetch local_path element :
  (2 ≤ length (class_ element))%nat →
  find_next_sibling element = None →
  fetch_element save fetch local_path element = raise AttributeError.
Proof.
  intros Hlen Hnext. unfold fetch_element.
  destruct (lookup_lt_is_Some_2 (class_ element) 1 Hlen) as [marker ->].
  rewrite Hnext. by destruct (String.eqb marker _).
Qed.

(** C7: for a file entry whose reference is [link], [fetch_data] awaits
    [save_file] on [link] with every [/src/branch] replaced by
    [/raw/branch], and a [save_file] call that gets its slot sends its GET
    to the base address followed by that rewritten reference. *)
Theorem file_reference_rewritten_before_download
    (free : nat) (base_url local_path link : string)
    (fetch : string → string → io unit) (element : element) :
  class_ element !! 1%nat = Some "octicon-file" →
  find_next_sibling element = Some (Sibling (Some link)) →
  let url := re_sub PATTERN_TO_FIND PATTERN_TO_SUB link in
  Substituted "/src/branch" "/raw/branch" link url
  ∧ fetch_element (save_file session_get free base_url) fetch
      local_path element
    = save_file session_get free base_url url local_path
  ∧ ∀ free' fs,
      (save_file session_get (S free') base_url url local_path fs).2 !! 2%nat
      = Some (EvGet (base_url +:+ url)).
Proof.
  intros Hclass Hnext url. split; [|split].
  - apply re_sub_Substituted.
  - by apply fetch_element_file.
  - intros free' fs. apply save_file_sends_get.
Qed.

End Entries.

Lemma file_reference_rewritten_before_download_witness :
  let url := re_sub PATTERN_TO_FIND PATTERN_TO_SUB "/flat/src/branch/master/a.txt" in
  Substituted "/src/branch" "/raw/branch" "/flat/src/branch/master/a.txt" url
  ∧ fetch_element (save_file Sample.session_get 2 Sample.base_url)
      (fetch_data Sample.session_get Sample.soup_tbody 2 Sample.base_url)
      "out/flat" (Sample.file_tag "/flat/src/branch/master/a.txt")
    = save_file Sample.session_get 2 Sample.base_url url "out/flat"
  ∧ ∀ free' fs,
      (save_file Sample.session_get (S free') Sample.base_url url "out/flat"
         fs).2 !! 2%nat
      = Some (EvGet (Sample.base_url +:+ url)).
Proof.
  apply (file_reference_rewritten_before_download Sample.session_get 2
           Sample.base_url "out/flat" "/flat/src/branch/master/a.txt"
           (fetch_data Sample.session_get Sample.soup_tbody 2 Sample.base_url)
           (Sample.file_tag "/flat/src/branch/master/a.txt"));
    reflexivity.
Defined.

Example re_sub_readme :
  re_sub PATTERN_TO_FIND PATTERN_TO_SUB
    "/radium/project-configuration/src/branch/master/README.md"
  = "/radium/project-configuration/raw/branch/master/README.md".
Proof. reflexivity. Qed.

(** The substitution is not anchored: every occurrence is replaced. *)
Example re_sub_twice :
  re_sub PATTERN_TO_FIND PATTERN_TO_SUB "/r/src/branch/m/src/branch/x"
  = "/r/raw/branch/m/raw/branch/x".
Proof. reflexivity. Qed.

(** ** How a listing entry is classified *)

Lemma for_each_raises {A} (body : A → io unit) pre x rest e fs fs1 t1 :
  for_each body pre fs = (Returned tt, fs1, t1) →
  body x = raise e →
  for_each body (pre ++ x :: rest) fs = (Raised e, fs1, t1).
Proof.
  revert fs fs1 t1. induction pre as [|y pre IH]; intros fs fs1 t1; simpl.
  - intros [= <- <-] ->. done.
  - intros Hrun Hx. apply bind_returned in Hrun
      as ([] & fs2 & t2 & t3 & Hy & Hpre & ->).
    unfold mbind, io_bind. rewrite Hy.
    by rewrite (IH _ _ _ Hpre Hx).
Qed.

Section Classification.

Variable session_get : string → get_result.
Variable soup_tbody : list byte → option (list element).

(** An entry that raises ends the whole call for its directory. *)
Lemma fetch_data_entry_raises free base_url local_path url fs response tags
    pre entry rest fs1 t1 e :
  session_get (base_url +:+ url) = Got response →
  soup_tbody (content response) = Some tags →
  find_all CLASSES tags = pre ++ entry :: rest →
  for_each
    (fetch_element (save_file session_get free base_url)
       (fetch_data session_get soup_tbody free base_url) local_path)
    pre fs = (Returned tt, fs1, t1) →
  fetch_element (save_file session_get free base_url)
    (fetch_data session_get soup_tbody free base_url) local_path entry
  = raise e →
  fetch_data session_get soup_tbody (S free) base_url local_path url fs
  = (Raised e, fs1,
     EvEnter (FetchData local_path url) :: EvAcquire
     :: EvGet (base_url +:+ url) :: t1
     ++ [EvRelease; EvLeave (FetchData local_path url)]).
Proof.
  intros Hget Hsoup Hfind Hpre Hentry. rewrite fetch_data_unfold.
  unfold coroutine, async_with, mbind at 1, io_bind at 1, emit.
  rewrite Hget, Hsoup, Hfind.
  rewrite (for_each_raises _ _ _ rest _ _ _ _ Hpre Hentry). simpl.
  by rewrite <- app_assoc.
Qed.

(** C10: an entry that [find_all] matched and that has a second class and
    a next sibling with a reference is a file exactly when the second class
    is [octicon-file], and goes through the directory branch with any other
    second class; an entry with fewer than two classes raises [IndexError],
    one without next sibling raises [AttributeError], and the exception
    leaves [fetch_data] uncaught. *)
Theorem entry_is_file_iff_second_class_is_octicon_file
    (free : nat) (base_url local_path : string) :
  let save := save_file session_get free base_url in
  let fetch := fetch_data session_get soup_tbody free base_url in
  (∀ entry marker link,
     class_ entry !! 1%nat = Some marker →
     find_next_sibling entry = Some (Sibling (Some link)) →
     if decide (marker = "octicon-file")
     then fetch_element save fetch local_path entry
          = save (re_sub PATTERN_TO_FIND PATTERN_TO_SUB link) local_path
     else fetch_element save fetch local_path entry
          = (os_makedirs (os_path_join local_path (last_segment link)) ;;
             fetch (os_path_join local_path (last_segment link)) link))
  ∧ (∀ entry,
       (length (class_ entry) < 2)%nat →
       fetch_element save fetch local_path entry = raise IndexError)
  ∧ (∀ entry,
       (2 ≤ length (class_ entry))%nat →
       find_next_sibling entry = None →
       fetch_element save fetch local_path entry = raise AttributeError)
  ∧ (∀ url fs response tags pre entry rest fs1 t1,
       session_get (base_url +:+ url) = Got response →
       soup_tbody (content response) = Some tags →
       find_all CLASSES tags = pre ++ entry :: rest →
       for_each (fetch_element save fetch local_path) pre fs
       = (Returned tt, fs1, t1) →
       (length (class_ entry) < 2)%nat ∨ find_next_sibling entry = None →
       ∃ e t,
         fetch_data session_get soup_tbody (S free) base_url local_path url fs
         = (Raised e, fs1, t)).
Proof.
  intros save fetch. split; [|split; [|split]].
  - intros entry marker link Hclass Hnext. case_decide as Hmarker.
    + subst marker. by apply fetch_element_file.
    + by apply fetch_element_directory with marker.
  - intros entry. apply fetch_element_one_class.
  - intros entry. apply fetch_element_no_sibling.
  - intros url fs response tags pre entry rest fs1 t1 Hget Hsoup Hfind
      Hpre Hodd.
    assert (∃ e, fetch_element save fetch local_path entry = raise e)
      as [e He].
    { destruct (decide (length (class_ entry) < 2)%nat) as [Hlen|Hlen].
      - exists IndexError. by apply fetch_element_one_class.
      - destruct Hodd as [?|Hnext]; [done|].
        exists AttributeError. apply fetch_element_no_sibling; [lia|done]. }
    eexists e, _.
    by apply (fetch_data_entry_raises _ _ _ _ _ _ _ _ _ _ _ _ _
                Hget Hsoup Hfind Hpre He).
Qed.

End Classification.

Lemma entry_is_file_iff_second_class_is_octicon_file_witness :
  let save := save_file Sample.session_get 2 Sample.base_url in
  let fetch := fetch_data Sample.session_get Sample.soup_tbody 2 Sample.base_url in
  fetch_element save fetch "out"
    (Element ["octicon-file"; "octicon-file"] (Some (Sibling (Some "/r/src/branch/m/f"))))
  = save "/r/raw/branch/m/f" "out"
  ∧ fetch_element save fetch "out"
      (Element ["octicon-file"; "svg"] (Some (Sibling (Some "/r/src/branch/m/f"))))
    = (os_makedirs "out/f" ;; fetch "out/f" "/r/src/branch/m/f")
  ∧ fetch_element save fetch "out" (Element ["octicon-file"] None)
    = raise IndexError
  ∧ fetch_element save fetch "out" (Element ["svg"; "octicon-file"] None)
    = raise AttributeError
  ∧ ∃ e t,
      fetch_data Sample.session_get Sample.soup_tbody 3 Sample.base_url
        "out" "/odd" Sample.fs0
      = (Raised e, Sample.fs0, t).
Proof.
  intros save fetch.
  pose proof (entry_is_file_iff_second_class_is_octicon_file
                Sample.session_get Sample.soup_tbody 2 Sample.base_url "out")
    as (Hkind & Hindex & Hattr & Hraise).
  split; [|split; [|split; [|split]]].
  - apply (Hkind (Element ["octicon-file"; "octicon-file"]
                    (Some (Sibling (Some "/r/src/branch/m/f"))))
             "octicon-file" "/r/src/branch/m/f"); reflexivity.
  - apply (Hkind (Element ["octicon-file"; "svg"]
                    (Some (Sibling (Some "/r/src/branch/m/f"))))
             "svg" "/r/src/branch/m/f"); reflexivity.
  - apply Hindex. simpl. lia.
  - apply Hattr; [simpl; lia|reflexivity].
  - apply (Hraise "/odd" Sample.fs0
             (Response 200 (list_byte_of_string "page: odd"))
             [Element ["svg"; "octicon-git-branch"] None;
              Element ["octicon-file"] (Some (Sibling (Some "/odd/x")))]
             [] (Element ["octicon-file"] (Some (Sibling (Some "/odd/x"))))
             [] Sample.fs0 []);
      [reflexivity..|left; simpl; lia].
Defined.

(** ** The digest of one file *)

Lemma be_bytes_length n x : length (SHA256.be_bytes n x) = n.
Proof. induction n as [|n IH]; simpl; [done|]. by rewrite IH. Qed.

Lemma digest_length data : length (SHA256.digest data) = 32%nat.
Proof.
  unfold SHA256.digest. cbn [flat_map].
  rewrite !length_app, !be_bytes_length. done.
Qed.

Lemma hex_length bs : String.length (SHA256.hex bs) = (2 * length bs)%nat.
Proof. induction bs as [|b bs IH]; simpl; [done|]. rewrite IH. lia. Qed.

Lemma hex_digit_lower n :
  SHA256.hex_digit n ∈ list_ascii_of_string "0123456789abcdef".
Proof.
  unfold SHA256.hex_digit. apply list_elem_of_In, nth_In.
  pose proof (Z.mod_pos_bound n 16 ltac:(lia)) as Hmod.
  change (length (list_ascii_of_string "0123456789abcdef")) with 16%nat.
  lia.
Qed.

Lemma hex_lower bs :
  Forall (λ c, c ∈ list_ascii_of_string "0123456789abcdef")
    (list_ascii_of_string (SHA256.hex bs)).
Proof.
  induction bs as [|b bs IH]; simpl; [constructor|].
  constructor; [apply hex_digit_lower|].
  constructor; [apply hex_digit_lower|]. exact IH.
Qed.

Lemma hexdigest_is_hex_digest data : is_hex_digest (SHA256.hexdigest data).
Proof.
  unfold is_hex_digest, SHA256.hexdigest. split.
  - by rewrite hex_length, digest_length.
  - apply hex_lower.
Qed.

(** The digests of FIPS 180-4 for the empty message, for [abc] and for a
    message of two blocks. *)
Example sha256_empty :
  SHA256.hexdigest []
  = "e3b0c44298fc1c149afbf4c8996fb92427ae41e4649b934ca495991b7852b855".
Proof. vm_compute. reflexivity. Qed.

Example sha256_abc :
  SHA256.hexdigest (list_byte_of_string "abc")
  = "ba7816bf8f01cfea414140de5dae2223b00361a396177a9cb410ff61f20015ad".
Proof. vm_compute. reflexivity. Qed.

Example sha256_two_blocks :
  SHA256.hexdigest
    (list_byte_of_string
       "abcdbcdecdefdefgefghfghighijhijkijkljklmklmnlmnomnopnopq")
  = "248d6a61d20638b8e5c026930c3e6039a33ce45964ff2167f6ecedd419db06c1".
Proof. vm_compute. reflexivity. Qed.



(** ** The manifest of a directory *)

Lemma is_Some_set_file p data fs q :
  is_Some (files fs !! q) → is_Some (files (set_file p data fs) !! q).
Proof.
  intros Hq. unfold set_file; simpl.
  destruct (decide (p = q)) as [->|Hne].
  - rewrite lookup_insert_eq. eauto.
  - by rewrite lookup_insert_ne.
Qed.

Lemma hashed_row_frame p out fs row :
  hashed_row (set_file p out fs) p row → hashed_row fs p row.
Proof.
  intros [Hhex Hdata]. split; [done|]. intros Hne.
  destruct (Hdata Hne) as (data & Hlook & Hrow). exists data. split; [|done].
  unfold set_file in Hlook; simpl in Hlook.
  by rewrite lookup_insert_ne in Hlook.
Qed.

(** One row: the file is read, hashed, and its line appended. *)
Lemma write_row p q fs cur data :
  files fs !! p = Some cur →
  files fs !! q = Some data →
  (calculate_sha256 q ≫= λ sha256_hash, writerow p [q; sha256_hash]) fs
  = (Returned tt,
     set_file p
       (cur ++ list_byte_of_string (csv_row [q; SHA256.hexdigest data])) fs,
     []).
Proof.
  intros Hp Hq.
  unfold mbind, io_bind, calculate_sha256, writerow, file_write, modify_fs.
  by rewrite Hq, Hp.
Qed.




Lemma os_walk_Dir top entries :
  os_walk top (Dir entries)
  = (top, dir_names entries, file_names entries)
    :: flat_map
         (λ e, if is_dir e.2 then os_walk (os_path_join top e.1) e.2 else [])
         entries.
Proof.
  simpl. f_equal. induction entries as [|[name sub] entries IH]; simpl; [done|].
  by rewrite IH.
Qed.

Lemma walked_paths_Dir top entries :
  walked_paths top (Dir entries)
  = map (os_path_join top) (file_names entries)
    ++ flat_map (λ e, walked_paths (os_path_join top e.1) e.2) entries.
Proof.
  unfold walked_paths. rewrite os_walk_Dir. simpl. f_equal.
  induction entries as [|[name sub] entries IH]; simpl; [done|].
  rewrite flat_map_app, IH. by destruct sub.
Qed.

Lemma In_file_names name entries :
  In name (file_names entries) ↔ In (name, File) entries.
Proof.
  unfold file_names. rewrite in_map_iff. split.
  - intros ([name' sub] & <- & Hin). apply filter_In in Hin as [Hin Hfile].
    simpl in *. by destruct sub.
  - intros Hin. exists (name, File). split; [done|].
    apply filter_In. done.
Qed.






(** ** Rebuilding the manifest *)

Lemma touches_only_bind {A B} p (m : io A) (k : A → io B) :
  touches_only p m → (∀ a, touches_only p (k a)) → touches_only p (m ≫= k).
Proof.
  intros Hm Hk fs r fs' t. unfold mbind, io_bind.
  destruct (m fs) as [[ra fs1] t1] eqn:Hrun. specialize (Hm _ _ _ _ Hrun).
  destruct ra as [a|e|]; [|by intros [= <- <- <-]..].
  destruct (k a fs1) as [[rb fs2] t2] eqn:Hrun2. intros [= <- <- <-].
  specialize (Hk _ _ _ _ _ Hrun2).
  destruct Hm as [->|[out1 ->]]; [done|].
  destruct Hk as [->|[out2 ->]]; [eauto|].
  right. exists out2. apply set_file_set_file.
Qed.

Lemma touches_only_for_each {A} p (body : A → io unit) l :
  (∀ x, touches_only p (body x)) → touches_only p (for_each body l).
Proof.
  intros Hbody. induction l as [|x l IH]; simpl.
  - intros fs r fs' t [= <- <- <-]. by left.
  - apply touches_only_bind; [apply Hbody|]. by intros _.
Qed.

Lemma touches_only_writerow p fields : touches_only p (writerow p fields).
Proof. intros fs r fs' t [= <- <- <-]. eauto. Qed.

Lemma touches_only_calculate_sha256 p q : touches_only p (calculate_sha256 q).
Proof.
  intros fs r fs' t. unfold calculate_sha256.
  destruct (files fs !! q); intros [= <- <- <-]; by left.
Qed.

Lemma open_ok_set_file p out fs q :
  open_ok (set_file p out fs) q = open_ok fs q.
Proof. done. Qed.

(** The manifest build is a function of the store as [open] leaves it. *)
Lemma calculate_sha256_for_directory_unfold tree directory p fs :
  calculate_sha256_for_directory tree directory p fs
  = if open_ok fs p
    then (writerow p fieldnames ;;
          for_each
            (λ '(root, _, files),
               for_each
                 (λ file_name,
                    let file_path := os_path_join root file_name in
                    sha256_hash ← calculate_sha256 file_path ;
                    writerow p [file_path; sha256_hash])
                 files)
            (os_walk directory tree)) (set_file p [] fs)
    else (Raised OSError, fs, []).
Proof.
  unfold calculate_sha256_for_directory.
  unfold mbind at 1, io_bind at 1, open_write.
  destruct (open_ok fs p); [|done].
  match goal with
  | |- match ?run with _ => _ end = _ => by destruct run as [[r fs'] t]
  end.
Qed.

Lemma calculate_sha256_for_directory_touches_only tree directory p :
  touches_only p (calculate_sha256_for_directory tree directory p).
Proof.
  intros fs r fs' t. rewrite calculate_sha256_for_directory_unfold.
  destruct (open_ok fs p); [|intros [= <- <- <-]; by left].
  intros Hrun. right.
  assert (Hrest : touches_only p
            (writerow p fieldnames ;;
             for_each
               (λ '(root, _, files),
                  for_each
                    (λ file_name,
                       let file_path := os_path_join root file_name in
                       sha256_hash ← calculate_sha256 file_path ;
                       writerow p [file_path; sha256_hash])
                    files)
               (os_walk directory tree))).
  { apply touches_only_bind; [apply touches_only_writerow|]. intros _.
    apply touches_only_for_each. intros [[root ds] fls].
    apply touches_only_for_each. intros file_name.
    apply touches_only_bind; [apply touches_only_calculate_sha256|].
    intros h. apply touches_only_writerow. }
  destruct (Hrest _ _ _ _ Hrun) as [->|[out ->]]; [eauto|].
  exists out. apply set_file_set_file.
Qed.

(** C8: a second build of the manifest over the same directory, run on the
    store the first build left, ends as the first did and leaves the same
    store, so the same manifest byte for byte; and the manifest is opened for
    writing afresh: whatever the file held before the run, the run and the
    store it leaves are the same. *)
Theorem manifest_rebuild_is_identical
    (tree : node) (directory path_to_result : string) (fs : fsstate) :
  let build := calculate_sha256_for_directory tree directory path_to_result in
  build (build fs).1.2 = build fs
  ∧ (open_ok fs path_to_result = true →
     ∀ before, build (set_file path_to_result before fs) = build fs).
Proof.
  intros build. split.
  - destruct (build fs) as [[r fs1] t] eqn:Hrun. simpl.
    destruct (calculate_sha256_for_directory_touches_only _ _ _ _ _ _ _ Hrun)
      as [->|[out ->]]; [done|].
    unfold build in *.
    rewrite calculate_sha256_for_directory_unfold in Hrun |- *.
    rewrite open_ok_set_file, set_file_set_file.
    destruct (open_ok fs path_to_result); [done|].
    injection Hrun as <- Hfs <-. by rewrite <- Hfs.
  - intros Hopen before. unfold build.
    rewrite !calculate_sha256_for_directory_unfold.
    by rewrite open_ok_set_file, set_file_set_file, Hopen.
Qed.

Lemma manifest_rebuild_is_identical_witness :
  let build :=
    calculate_sha256_for_directory Sample.tree "out/flat"
      "out/repository_sha256" in
  build (build Sample.fs1).1.2 = build Sample.fs1
  ∧ ∀ before,
      build (set_file "out/repository_sha256" before Sample.fs1)
      = build Sample.fs1.
Proof.
  intros build.
  pose proof (manifest_rebuild_is_identical Sample.tree "out/flat"
                "out/repository_sha256" Sample.fs1) as [Htwice Hfresh].
  split; [exact Htwice|]. apply Hfresh. vm_compute. reflexivity.
Defined.

(** The manifest of the sample directory, byte for byte. *)
Example manifest_of_sample :
  files (calculate_sha256_for_directory Sample.tree "out/flat"
           "out/repository_sha256" Sample.fs1).1.2
    !! "out/repository_sha256"
  = Some (list_byte_of_string
            ("file_path,sha256_hash" +:+ String CR (String LF EmptyString)
             +:+ "out/flat/a.txt,ba7816bf8f01cfea414140de5dae2223b00361a396177a9cb410ff61f20015ad"
             +:+ String CR (String LF EmptyString)
             +:+ "out/flat/sub/b.txt,e3b0c44298fc1c149afbf4c8996fb92427ae41e4649b934ca495991b7852b855"
             +:+ String CR (String LF EmptyString))).
Proof. vm_compute. reflexivity. Qed.

(** ** Further properties of the crawl *)

Section CrawlOutcomes.

Variable session_get : string → get_result.
Variable soup_tbody : list byte → option (list element).

(** X1: whenever [fetch_data] returns or raises, every slot it or the
    calls below it acquired has been released: the events hold as many
    releases as acquisitions. *)
Theorem fetch_data_gives_back_every_slot
    (free : nat) (base_url local_path url : string) (fs fs' : fsstate)
    (r : outcome unit) (t : list event) :
  fetch_data session_get soup_tbody free base_url local_path url fs
  = (r, fs', t) →
  r ≠ Waiting →
  active t = 0%Z.
Proof.
  intros Hrun Hr.
  destruct (fetch_data_within_slots session_get soup_tbody free base_url
              local_path url 0%Z (Z.of_nat free) fs r fs' t) as [_ Hback];
    [lia|lia|exact Hrun|].
  by apply Hback.
Qed.

(** X2: when the GET of the listing raises a connection error,
    [fetch_data] logs it and returns: nothing is requested further, no
    directory or file is created, and the slot is released. *)
Theorem fetch_data_connection_error_changes_nothing
    (free : nat) (base_url local_path url : string) (fs : fsstate) :
  session_get (base_url +:+ url) = ConnectorError →
  fetch_data session_get soup_tbody (S free) base_url local_path url fs
  = (Returned tt, fs,
     [EvEnter (FetchData local_path url); EvAcquire;
      EvGet (base_url +:+ url);
      EvLogError ("An error occurred while parsing the url: " +:+ url);
      EvRelease; EvLeave (FetchData local_path url)]).
Proof.
  intros Hget. rewrite fetch_data_unfold.
  unfold coroutine, async_with, mbind, io_bind, emit. by rewrite Hget.
Qed.

(** X3: a page without a table body is not caught: [soup.tbody] is [None],
    [fetch_data] raises [AttributeError] with its slot released and nothing
    stored. *)
Theorem fetch_data_page_without_tbody_raises
    (free : nat) (base_url local_path url : string) (fs : fsstate)
    (response : response) :
  session_get (base_url +:+ url) = Got response →
  soup_tbody (content response) = None →
  fetch_data session_get soup_tbody (S free) base_url local_path url fs
  = (Raised AttributeError, fs,
     [EvEnter (FetchData local_path url); EvAcquire;
      EvGet (base_url +:+ url);
      EvRelease; EvLeave (FetchData local_path url)]).
Proof.
  intros Hget Hsoup. rewrite fetch_data_unfold.
  unfold coroutine, async_with, mbind, io_bind, emit.
  by rewrite Hget, Hsoup.
Qed.

Lemma for_each_stops {A} (body : A → io unit) pre x rest e fs fs1 t1 fs2 t2 :
  for_each body pre fs = (Returned tt, fs1, t1) →
  body x fs1 = (Raised e, fs2, t2) →
  for_each body (pre ++ x :: rest) fs = (Raised e, fs2, t1 ++ t2).
Proof.
  revert fs fs1 t1. induction pre as [|y pre IH]; intros fs fs1 t1; simpl.
  - intros [= <- <-] Hx. unfold mbind, io_bind. by rewrite Hx.
  - intros Hrun Hx. apply bind_returned in Hrun
      as ([] & fs3 & t3 & t4 & Hy & Hpre & ->).
    unfold mbind, io_bind. rewrite Hy.
    rewrite (IH _ _ _ Hpre Hx). by rewrite app_assoc.
Qed.

(** X4: there is no skip-and-continue for an entry that raises.  When the
    entries before it have returned and the processing of an entry raises,
    be it in a download or anywhere in the crawl of a subdirectory, the call
    for the directory raises the same exception with the store as the failed
    entry left it; the entries after it are never processed. *)
Theorem fetch_data_entry_failure_ends_directory
    (free : nat) (base_url local_path url : string) (fs fs1 fs2 : fsstate)
    (response : response) (tags pre rest : list element) (entry : element)
    (t1 t2 : list event) (e : exn) :
  session_get (base_url +:+ url) = Got response →
  soup_tbody (content response) = Some tags →
  find_all CLASSES tags = pre ++ entry :: rest →
  for_each
    (fetch_element (save_file session_get free base_url)
       (fetch_data session_get soup_tbody free base_url) local_path)
    pre fs = (Returned tt, fs1, t1) →
  fetch_element (save_file session_get free base_url)
    (fetch_data session_get soup_tbody free base_url) local_path entry fs1
  = (Raised e, fs2, t2) →
  fetch_data session_get soup_tbody (S free) base_url local_path url fs
  = (Raised e, fs2,
     [EvEnter (FetchData local_path url); EvAcquire; EvGet (base_url +:+ url)]
     ++ t1 ++ t2 ++ [EvRelease; EvLeave (FetchData local_path url)]).
Proof.
  intros Hget Hsoup Hfind Hpre Hentry. rewrite fetch_data_unfold.
  unfold coroutine, async_with, mbind at 1, io_bind at 1, emit.
  rewrite Hget, Hsoup, Hfind.
  rewrite (for_each_stops _ _ _ rest _ _ _ _ _ _ Hpre Hentry). simpl.
  by rewrite <- !app_assoc.
Qed.

Lemma for_each_skip {A} (body : A → io unit) pre x post :
  (∀ fs, ∃ t, body x fs = (Returned tt, fs, t)) →
  ∀ fs, (for_each body (pre ++ x :: post) fs).1
        = (for_each body (pre ++ post) fs).1.
Proof.
  intros Hx. induction pre as [|y pre IH]; intros fs; simpl.
  - unfold mbind, io_bind. destruct (Hx fs) as [t ->].
    by destruct (for_each body post fs) as [[r fs'] t'].
  - unfold mbind, io_bind.
    destruct (body y fs) as [[[[]|e|] fs1] t1]; try done.
    specialize (IH fs1).
    destruct (for_each body (pre ++ x :: post) fs1) as [[r2 fs2] t2].
    destruct (for_each body (pre ++ post) fs1) as [[r3 fs3] t3].
    simpl in IH. by injection IH as -> ->.
Qed.

(** X5: a file whose download fails to connect is skipped and its
    siblings are not affected.  With a free slot for the download, the loop
    over a listing that holds such a file entry ends with the same outcome
    and leaves the same store as the loop over the listing without it. *)
Theorem unreachable_file_leaves_siblings_alone
    (free : nat) (base_url local_path link : string)
    (pre post : list element) (entry : element) (fs : fsstate) :
  class_ entry !! 1%nat = Some "octicon-file" →
  find_next_sibling entry = Some (Sibling (Some link)) →
  session_get (base_url +:+ re_sub PATTERN_TO_FIND PATTERN_TO_SUB link)
  = ConnectorError →
  let body :=
    fetch_element (save_file session_get (S free) base_url)
      (fetch_data session_get soup_tbody (S free) base_url) local_path in
  (for_each body (pre ++ entry :: post) fs).1
  = (for_each body (pre ++ post) fs).1.
Proof.
  intros Hclass Hnext Hget body. apply for_each_skip. intros fs1.
  unfold body. rewrite (fetch_element_file _ _ _ _ _ Hclass Hnext).
  by apply save_file_connector_error.
Qed.

End CrawlOutcomes.

Lemma fetch_data_gives_back_every_slot_witness :
  active Sample.flat_events = 0%Z.
Proof.
  apply (fetch_data_gives_back_every_slot Sample.session_get
           Sample.soup_tbody SEMAPHORE_LIMIT Sample.base_url "out/flat" "/flat"
           (add_dir "out/flat" Sample.fs0)
           (fetch_data Sample.session_get Sample.soup_tbody SEMAPHORE_LIMIT
              Sample.base_url "out/flat" "/flat"
              (add_dir "out/flat" Sample.fs0)).1.2
           (Returned tt) Sample.flat_events).
  - vm_compute. reflexivity.
  - discriminate.
Defined.

Lemma fetch_data_connection_error_changes_nothing_witness :
  fetch_data Sample.session_get Sample.soup_tbody 3 Sample.base_url
    "out" "/gone" Sample.fs0
  = (Returned tt, Sample.fs0,
     [EvEnter (FetchData "out" "/gone"); EvAcquire;
      EvGet (Sample.base_url +:+ "/gone");
      EvLogError ("An error occurred while parsing the url: " +:+ "/gone");
      EvRelease; EvLeave (FetchData "out" "/gone")]).
Proof.
  apply (fetch_data_connection_error_changes_nothing Sample.session_get
           Sample.soup_tbody 2 Sample.base_url "out" "/gone" Sample.fs0).
  reflexivity.
Defined.

Lemma fetch_data_page_without_tbody_raises_witness :
  fetch_data Sample.session_get Sample.soup_tbody 3 Sample.base_url
    "out" "/flat/raw/branch/master/a.txt" Sample.fs0
  = (Raised AttributeError, Sample.fs0,
     [EvEnter (FetchData "out" "/flat/raw/branch/master/a.txt"); EvAcquire;
      EvGet (Sample.base_url +:+ "/flat/raw/branch/master/a.txt");
      EvRelease; EvLeave (FetchData "out" "/flat/raw/branch/master/a.txt")]).
Proof.
  apply (fetch_data_page_without_tbody_raises Sample.session_get
           Sample.soup_tbody 2 Sample.base_url "out"
           "/flat/raw/branch/master/a.txt" Sample.fs0
           (Response 200 (list_byte_of_string "abc")));
    reflexivity.
Defined.

Lemma fetch_data_entry_failure_ends_directory_witness :
  ∃ fs2 t,
    fetch_data Sample2.session_get Sample2.soup_tbody 3 Sample2.base_url
      "out" "/mixed" Sample.fs0
    = (Raised AttributeError, fs2, t)
    ∧ files fs2 !! "out/a.txt" = Some (list_byte_of_string "abc")
    ∧ files fs2 !! "out/b.txt" = None.
Proof.
  eexists _, _. split.
  - apply (fetch_data_entry_failure_ends_directory Sample2.session_get
             Sample2.soup_tbody 2 Sample2.base_url "out" "/mixed" Sample.fs0
             (Sample2.body (Sample.file_tag "/mixed/src/branch/master/a.txt")
                Sample.fs0).1.2
             (Sample2.body (Sample.dir_tag "/mixed/src/branch/master/bad")
                (Sample2.body (Sample.file_tag "/mixed/src/branch/master/a.txt")
                   Sample.fs0).1.2).1.2
             (Response 200 (list_byte_of_string "page: mixed"))
             [Sample.file_tag "/mixed/src/branch/master/a.txt";
              Sample.dir_tag "/mixed/src/branch/master/bad";
              Sample.file_tag "/mixed/src/branch/master/gone.txt";
              Sample.file_tag "/mixed/src/branch/master/b.txt"]
             [Sample.file_tag "/mixed/src/branch/master/a.txt"]
             [Sample.file_tag "/mixed/src/branch/master/gone.txt";
              Sample.file_tag "/mixed/src/branch/master/b.txt"]
             (Sample.dir_tag "/mixed/src/branch/master/bad")
             (Sample2.body (Sample.file_tag "/mixed/src/branch/master/a.txt")
                Sample.fs0).2
             (Sample2.body (Sample.dir_tag "/mixed/src/branch/master/bad")
                (Sample2.body (Sample.file_tag "/mixed/src/branch/master/a.txt")
                   Sample.fs0).1.2).2
             AttributeError);
      vm_compute; reflexivity.
  - vm_compute. split; reflexivity.
Defined.

Lemma unreachable_file_leaves_siblings_alone_witness :
  let body :=
    fetch_element (save_file Sample2.session_get 3 Sample2.base_url)
      (fetch_data Sample2.session_get Sample2.soup_tbody 3 Sample2.base_url)
      "out" in
  (for_each body
     ([Sample.file_tag "/mixed/src/branch/master/a.txt"]
      ++ Sample.file_tag "/mixed/src/branch/master/gone.txt"
      :: [Sample.file_tag "/mixed/src/branch/master/b.txt"]) Sample.fs0).1
  = (for_each body
       ([Sample.file_tag "/mixed/src/branch/master/a.txt"]
        ++ [Sample.file_tag "/mixed/src/branch/master/b.txt"]) Sample.fs0).1.
Proof.
  apply (unreachable_file_leaves_siblings_alone Sample2.session_get
           Sample2.soup_tbody 2 Sample2.base_url "out"
           "/mixed/src/branch/master/gone.txt");
    reflexivity.
Defined.

(** ** What a crawl does to the store *)

Lemma append_assoc (a b c : string) : (a +:+ b) +:+ c = a +:+ (b +:+ c).
Proof.
  induction a as [|x a IH]; [done|].
  change (String x ((a +:+ b) +:+ c) = String x (a +:+ (b +:+ c))).
  by rewrite IH.
Qed.

Lemma append_nil_r (a : string) : a +:+ EmptyString = a.
Proof.
  induction a as [|x a IH]; [done|].
  change (String x (a +:+ EmptyString) = String x a). by rewrite IH.
Qed.

Lemma strip_prefix_append a r : strip_prefix a (a +:+ r) = Some r.
Proof.
  induction a as [|x a IH]; [by destruct r|].
  change (strip_prefix (String x a) (String x (a +:+ r)) = Some r).
  simpl. by rewrite Ascii.eqb_refl.
Qed.

Lemma strip_prefix_Some a p r : strip_prefix a p = Some r → p = a +:+ r.
Proof.
  revert p. induction a as [|x a IH]; intros p; simpl.
  - by intros [= ->].
  - destruct p as [|y p]; [done|].
    destruct (Ascii.eqb x y) eqn:Hxy; [|done].
    apply Ascii.eqb_eq in Hxy as ->. intros Hp.
    change (String y p = String y (a +:+ r)). by rewrite (IH _ Hp).
Qed.

Lemma starts_with_append a r : starts_with a (a +:+ r).
Proof. unfold starts_with. rewrite strip_prefix_append. eauto. Qed.

Lemma starts_with_trans a b c :
  starts_with a b → starts_with b c → starts_with a c.
Proof.
  intros [r1 ->%strip_prefix_Some] [r2 ->%strip_prefix_Some].
  rewrite append_assoc. apply starts_with_append.
Qed.

Lemma split_not_nil sep s : split sep s ≠ [].
Proof.
  destruct s as [|c s]; simpl; [done|].
  destruct (Ascii.eqb c sep); [done|]. by destruct (split sep s).
Qed.

(** No segment of a split holds the separator. *)
Lemma split_segments_free s :
  Forall slash_free (split "/" s).
Proof.
  induction s as [|c s IH]; simpl.
  - constructor; [|constructor]. by intros [].
  - destruct (Ascii.eqb c "/") eqn:Hc.
    + constructor; [by intros []|exact IH].
    + destruct (split "/" s) as [|seg segs] eqn:Hs;
        [by destruct (split_not_nil "/" s)|].
      apply Forall_cons in IH as [Hseg Hsegs].
      constructor; [|done]. intros [Heq|Hin]; [|by apply Hseg].
      subst c. discriminate.
Qed.

Lemma last_segment_slash_free s : slash_free (last_segment s).
Proof.
  unfold last_segment.
  pose proof (split_segments_free s) as Hall.
  pose proof (split_not_nil "/" s) as Hne.
  rewrite Forall_forall in Hall. apply Hall, list_elem_of_In.
  destruct (exists_last Hne) as (l & x & ->).
  rewrite last_last. apply in_or_app. right. by left.
Qed.

Lemma os_path_join_starts_with a b :
  slash_free b → starts_with a (os_path_join a b).
Proof.
  intros Hb. unfold os_path_join.
  destruct b as [|c b].
  - destruct (String.eqb a EmptyString || ends_with_slash a);
      apply starts_with_append.
  - assert (c ≠ "/"%char) as Hc by (intros ->; apply Hb; by left).
    destruct c as [[] [] [] [] [] [] [] []]; try congruence;
      (destruct (String.eqb a EmptyString || ends_with_slash a);
       apply starts_with_append).
Qed.

Lemma store_rel_ret {A} R `{!Reflexive R} (a : A) : store_rel R (mret a).
Proof. by intros fs r fs' t [= <- <- <-]. Qed.

Lemma store_rel_raise {A} R `{!Reflexive R} e : store_rel R (raise e : io A).
Proof. by intros fs r fs' t [= <- <- <-]. Qed.

Lemma store_rel_emit R `{!Reflexive R} e : store_rel R (emit e).
Proof. by intros fs r fs' t [= <- <- <-]. Qed.

Lemma store_rel_bind {A B} R `{!PreOrder R} (m : io A) (k : A → io B) :
  store_rel R m → (∀ a, store_rel R (k a)) → store_rel R (m ≫= k).
Proof.
  intros Hm Hk fs r fs' t. unfold mbind, io_bind.
  destruct (m fs) as [[ra fs1] t1] eqn:Hrun. specialize (Hm _ _ _ _ Hrun).
  destruct ra as [a|e|]; [|by intros [= <- <- <-]..].
  destruct (k a fs1) as [[rb fs2] t2] eqn:Hrun2. intros [= <- <- <-].
  trans fs1; [done|]. by eapply Hk.
Qed.

Lemma store_rel_for_each {A} R `{!PreOrder R} (body : A → io unit) l :
  (∀ x, store_rel R (body x)) → store_rel R (for_each body l).
Proof.
  intros Hbody. induction l as [|x l IH]; simpl.
  - intros fs r fs' t [= <- <- <-]. reflexivity.
  - apply store_rel_bind; [done|apply Hbody|by intros _].
Qed.

Lemma store_rel_coroutine {A} R c (body : io A) :
  store_rel R body → store_rel R (coroutine c body).
Proof.
  intros Hbody fs r fs' t. unfold coroutine.
  destruct (body fs) as [[rb fs1] t1] eqn:Hrun. specialize (Hbody _ _ _ _ Hrun).
  by destruct rb; intros [= <- <- <-].
Qed.

Lemma store_rel_async_with {A} R `{!Reflexive R} free (body : nat → io A) :
  (∀ free', free = S free' → store_rel R (body free')) →
  store_rel R (async_with free body).
Proof.
  intros Hbody fs r fs' t. unfold async_with.
  destruct free as [|free']; [by intros [= <- <- <-]|].
  destruct (body free' fs) as [[rb fs1] t1] eqn:Hrun.
  specialize (Hbody _ eq_refl _ _ _ _ Hrun).
  by destruct rb; intros [= <- <- <-].
Qed.

Lemma crawl_step_below a b fs fs' :
  starts_with a b → crawl_step b fs fs' → crawl_step a fs fs'.
Proof.
  intros Hab Hstep. destruct Hstep as [fs p Hp Hfree|fs p data Hp Hopen].
  - apply crawl_makes_dir; [by eapply starts_with_trans|done].
  - apply crawl_writes_file; [by eapply starts_with_trans|done].
Qed.

Lemma crawl_steps_below a b fs fs' :
  starts_with a b → rtc (crawl_step b) fs fs' → rtc (crawl_step a) fs fs'.
Proof.
  intros Hab. apply rtc_subrel. intros x y. by apply crawl_step_below.
Qed.

Section CrawlStore.

Variable session_get : string → get_result.
Variable soup_tbody : list byte → option (list element).

Lemma save_file_steps free base_url url path :
  store_rel (rtc (crawl_step path))
    (save_file session_get free base_url url path).
Proof.
  intros fs r fs' t. destruct free as [|free].
  - rewrite save_file_waits. by intros [= <- <- <-].
  - rewrite save_file_unfold.
    destruct (session_get (base_url +:+ url)); try by intros [= <- <- <-].
    destruct (open_ok fs (destination url path)) eqn:Hopen;
      intros [= <- <- <-]; [|done].
    apply rtc_once, crawl_writes_file; [|done].
    apply starts_with_append.
Qed.

Lemma os_makedirs_steps local_path p :
  starts_with local_path p →
  store_rel (rtc (crawl_step local_path)) (os_makedirs p).
Proof.
  intros Hp fs r fs' t. unfold os_makedirs.
  destruct (files fs !! p) eqn:Hfile; intros [= <- <- <-]; [done|].
  by apply rtc_once, crawl_makes_dir.
Qed.

(** The store after a crawl comes from the store before it by creating
    directories and writing files at paths that start with [local_path]. *)
Lemma fetch_data_steps free :
  ∀ base_url local_path url,
    store_rel (rtc (crawl_step local_path))
      (fetch_data session_get soup_tbody free base_url local_path url).
Proof.
  induction free as [|free IH]; intros base_url local_path url;
    rewrite fetch_data_unfold; apply store_rel_coroutine;
    apply store_rel_async_with; try apply _; intros free' Hfree;
    [done|injection Hfree as <-].
  apply store_rel_bind; [apply _|apply store_rel_emit; apply _|]. intros _.
  destruct (session_get (base_url +:+ url)) as [| |response].
  - apply store_rel_bind; [apply _|apply store_rel_emit; apply _|]. intros _.
    apply store_rel_ret; apply _.
  - apply store_rel_raise; apply _.
  - destruct (soup_tbody (content response)) as [tags|];
      [|apply store_rel_raise; apply _].
    apply store_rel_for_each; [apply _|]. intros entry.
    unfold fetch_element.
    destruct (class_ entry !! 1%nat) as [marker|]; [|apply store_rel_raise; apply _].
    destruct (String.eqb marker _);
      (destruct (find_next_sibling entry) as [[[link|]]|];
       [|apply store_rel_raise; apply _..]).
    + apply save_file_steps.
    + pose proof (os_path_join_starts_with local_path (last_segment link)
                    (last_segment_slash_free link)) as Hbelow.
      apply store_rel_bind; [apply _|by apply os_makedirs_steps|]. intros _.
      intros fs r fs' t Hrun. eapply crawl_steps_below; [exact Hbelow|].
      by eapply IH.
Qed.

End CrawlStore.

Lemma open_ok_not_dir fs p : open_ok fs p = true → p ∉ dirs fs.
Proof.
  unfold open_ok. intros Hopen.
  apply andb_prop in Hopen as [Hopen _].
  apply andb_prop in Hopen as [_ Hdir].
  apply negb_true_iff, bool_decide_eq_false in Hdir. done.
Qed.

Lemma crawl_step_grows local_path fs fs' :
  crawl_step local_path fs fs' →
  dirs fs ⊆ dirs fs' ∧ dom (files fs) ⊆ dom (files fs').
Proof.
  intros [fs0 p Hp Hfree|fs0 p data Hp Hopen]; simpl.
  - split; [apply union_subseteq_r|done].
  - split; [done|]. rewrite dom_insert_L. apply union_subseteq_r.
Qed.

Lemma crawl_step_apart local_path fs fs' :
  crawl_step local_path fs fs' →
  dom (files fs) ## dirs fs → dom (files fs') ## dirs fs'.
Proof.
  intros [fs0 p Hp Hfree|fs0 p data Hp Hopen]; simpl; intros Hapart.
  - apply not_elem_of_dom in Hfree.
    apply disjoint_union_r. split; [|done]. by apply disjoint_singleton_r.
  - apply open_ok_not_dir in Hopen. rewrite dom_insert_L.
    apply disjoint_union_l. split; [|done]. by apply disjoint_singleton_l.
Qed.


Section CrawlStoreProperties.

Variable session_get : string → get_result.
Variable soup_tbody : list byte → option (list element).


(** X7: a crawl removes nothing: every directory and every file of the
    store before the crawl is still there after it, however the crawl
    ends. *)
Theorem fetch_data_removes_nothing
    (free : nat) (base_url local_path url : string) (fs fs' : fsstate)
    (r : outcome unit) (t : list event) :
  fetch_data session_get soup_tbody free base_url local_path url fs
  = (r, fs', t) →
  dirs fs ⊆ dirs fs' ∧ dom (files fs) ⊆ dom (files fs').
Proof.
  intros Hrun. apply fetch_data_steps in Hrun.
  induction Hrun as [fs0|fs0 fs1 fs2 Hstep _ IH]; [done|].
  apply crawl_step_grows in Hstep as [Hdirs Hfiles].
  destruct IH as [IHdirs IHfiles]. split; by etrans.
Qed.

(** X8: a crawl keeps files and directories apart: if no path is both a
    file and a directory before the crawl, none is after it, since
    [makedirs] refuses the path of a file and [open] the path of a
    directory. *)
Theorem fetch_data_keeps_files_and_dirs_apart
    (free : nat) (base_url local_path url : string) (fs fs' : fsstate)
    (r : outcome unit) (t : list event) :
  fetch_data session_get soup_tbody free base_url local_path url fs
  = (r, fs', t) →
  dom (files fs) ## dirs fs →
  dom (files fs') ## dirs fs'.
Proof.
  intros Hrun. apply fetch_data_steps in Hrun.
  induction Hrun as [fs0|fs0 fs1 fs2 Hstep _ IH]; [done|].
  intros Hapart. by apply IH, (crawl_step_apart _ _ _ Hstep).
Qed.

End CrawlStoreProperties.


Lemma fetch_data_removes_nothing_witness :
  dirs Sample2.fs_other ⊆ dirs Sample2.flat_run.1.2
  ∧ dom (files Sample2.fs_other) ⊆ dom (files Sample2.flat_run.1.2).
Proof.
  apply (fetch_data_removes_nothing Sample.session_get
           Sample.soup_tbody SEMAPHORE_LIMIT Sample.base_url "out/flat" "/flat"
           Sample2.fs_other Sample2.flat_run.1.2 Sample2.flat_run.1.1
           Sample2.flat_run.2).
  vm_compute. reflexivity.
Defined.

Lemma fetch_data_keeps_files_and_dirs_apart_witness :
  dom (files Sample2.flat_run.1.2) ## dirs Sample2.flat_run.1.2.
Proof.
  apply (fetch_data_keeps_files_and_dirs_apart Sample.session_get
           Sample.soup_tbody SEMAPHORE_LIMIT Sample.base_url "out/flat" "/flat"
           Sample2.fs_other Sample2.flat_run.1.2 Sample2.flat_run.1.1
           Sample2.flat_run.2).
  - vm_compute. reflexivity.
  - apply (bool_decide_unpack _). vm_compute. exact I.
Defined.

(** ** Paths and references *)

Lemma split_cons c s :
  split "/" (String c s)
  = if Ascii.eqb c "/" then EmptyString :: split "/" s
    else match split "/" s with
         | seg :: segs => String c seg :: segs
         | [] => [String c EmptyString]
         end.
Proof. done. Qed.

Lemma split_append a b :
  split "/" (a +:+ "/" +:+ b) = split "/" a ++ split "/" b.
Proof.
  induction a as [|c a IH]; [done|].
  change (split "/" (String c (a +:+ "/" +:+ b))
          = split "/" (String c a) ++ split "/" b).
  rewrite !split_cons, IH.
  destruct (Ascii.eqb c "/"); [done|].
  destruct (split "/" a) as [|seg segs] eqn:Ha; [|done].
  by destruct (split_not_nil "/" a).
Qed.

Lemma split_slash_free s : slash_free s → split "/" s = [s].
Proof.
  induction s as [|c s IH]; [done|]. intros Hfree.
  rewrite split_cons.
  destruct (Ascii.eqb c "/") eqn:Hc.
  - apply Ascii.eqb_eq in Hc as ->. destruct Hfree. by left.
  - rewrite IH; [done|]. intros Hin. apply Hfree. by right.
Qed.

Lemma join_segments_split s : join_segments (split "/" s) = s.
Proof.
  induction s as [|c s IH]; [done|]. rewrite split_cons.
  destruct (Ascii.eqb c "/") eqn:Hc.
  - apply Ascii.eqb_eq in Hc as ->.
    destruct (split "/" s) as [|seg segs] eqn:Hs;
      [by destruct (split_not_nil "/" s)|].
    change (EmptyString +:+ "/" +:+ join_segments (seg :: segs) = String "/" s).
    by rewrite IH.
  - destruct (split "/" s) as [|seg [|seg2 segs]] eqn:Hs;
      [by destruct (split_not_nil "/" s)|..].
    + simpl in *. by rewrite IH.
    + change (String c (seg +:+ "/" +:+ join_segments (seg2 :: segs))
              = String c s).
      by rewrite <- IH.
Qed.

Lemma destination_is_directly_in_path_parts url path :
  parent_dir (destination url path) = path
  ∧ last_segment (destination url path) = last_segment url.
Proof.
  pose proof (last_segment_slash_free url) as Hfree.
  unfold parent_dir, last_segment at 1, destination.
  rewrite split_append, (split_slash_free _ Hfree).
  rewrite removelast_last, last_last, join_segments_split. done.
Qed.

(** X9: [save_file] stores the file directly in [path], under the last
    component of [url]: the parent of the destination is [path] and its
    last component is [url.split('/')[-1]], which holds no slash. *)
Theorem destination_is_directly_in_path (url path : string) :
  parent_dir (destination url path) = path
  ∧ last_segment (destination url path) = last_segment url
  ∧ slash_free (last_segment url).
Proof.
  pose proof (last_segment_slash_free url) as Hfree.
  unfold parent_dir, last_segment at 1, destination.
  rewrite split_append, (split_slash_free _ Hfree).
  rewrite removelast_last, last_last, join_segments_split. done.
Qed.

Lemma append_length a b :
  String.length (a +:+ b) = (String.length a + String.length b)%nat.
Proof.
  induction a as [|c a IH]; [done|].
  change (S (String.length (a +:+ b)) = S (String.length a + String.length b)).
  by rewrite IH.
Qed.


Section DirectoryThenFile.

Variable session_get : string → get_result.


End DirectoryThenFile.


Lemma occurs_in_tail pattern c s :
  occurs_in pattern (String c s) →
  strip_prefix pattern (String c s) = None →
  occurs_in pattern s.
Proof.
  intros (before & after & Heq) Hmiss. destruct before as [|b before].
  - change (String c s = pattern +:+ after) in Heq.
    by rewrite Heq, strip_prefix_append in Hmiss.
  - change (String c s = String b (before +:+ pattern +:+ after)) in Heq.
    injection Heq as _ ->. by exists before, after.
Qed.

(** X11: a reference is changed by the rewrite exactly when [/src/branch]
    occurs in it; references already in the raw form pass unchanged. *)
Theorem re_sub_changes_only_references_with_pattern (link : string) :
  re_sub PATTERN_TO_FIND PATTERN_TO_SUB link = link
  ↔ ¬ occurs_in PATTERN_TO_FIND link.
Proof.
  change (re_sub PATTERN_TO_FIND PATTERN_TO_SUB link)
    with (re_sub_from 0 PATTERN_TO_FIND PATTERN_TO_SUB link).
  induction link as [|c link IH].
  - split; [|done]. intros _ (before & after & Heq).
    destruct before; discriminate.
  - cbn [re_sub_from].
    destruct (strip_prefix PATTERN_TO_FIND (String c link)) as [rest|] eqn:Hhit.
    + split.
      * intros Heq. apply strip_prefix_Some in Hhit.
        rewrite Hhit in Heq. discriminate.
      * intros Hno. destruct Hno. exists EmptyString, rest.
        exact (strip_prefix_Some _ _ _ Hhit).
    + split.
      * intros [= Heq] Hocc. apply IH in Heq. apply Heq.
        by eapply occurs_in_tail.
      * intros Hno. f_equal. apply IH. intros (before & after & ->).
        apply Hno. by exists (String c before), after.
Qed.

(** The rewrite keeps the number of segments and the last segment. *)
Lemma Substituted_segments s r :
  Substituted "/src/branch" "/raw/branch" s r →
  length (split "/" s) = length (split "/" r)
  ∧ last_segment s = last_segment r.
Proof.
  induction 1 as [|s rest r Hhit _ [IHlen IHlast]|c s r Hmiss _ [IHlen IHlast]].
  - done.
  - apply strip_prefix_Some in Hhit as ->. unfold last_segment in *.
    change ("/src/branch" +:+ rest)
      with (String "/" (String "s" (String "r" (String "c" (String "/"
             (String "b" (String "r" (String "a" (String "n" (String "c"
             (String "h" rest))))))))))).
    change ("/raw/branch" +:+ r)
      with (String "/" (String "r" (String "a" (String "w" (String "/"
             (String "b" (String "r" (String "a" (String "n" (String "c"
             (String "h" r))))))))))).
    rewrite !split_cons. simpl Ascii.eqb. cbv iota.
    destruct (split "/" rest) as [|h [|h2 t]] eqn:Hrest;
      [by destruct (split_not_nil "/" rest)|..];
      (destruct (split "/" r) as [|h' [|h2' t']] eqn:Hr;
       [by destruct (split_not_nil "/" r)|..]); simpl in *;
      try discriminate; split; congruence.
  - unfold last_segment in *. rewrite !split_cons.
    destruct (Ascii.eqb c "/").
    + simpl. split; [by rewrite IHlen|].
      destruct (split "/" s) as [|h t] eqn:Hs;
        [by destruct (split_not_nil "/" s)|].
      destruct (split "/" r) as [|h' t'] eqn:Hr;
        [by destruct (split_not_nil "/" r)|]. done.
    + destruct (split "/" s) as [|h [|h2 t]] eqn:Hs;
        [by destruct (split_not_nil "/" s)|..];
        (destruct (split "/" r) as [|h' [|h2' t']] eqn:Hr;
         [by destruct (split_not_nil "/" r)|..]); simpl in *;
        try discriminate; split; congruence.
Qed.

(** X12: the rewrite never changes the name a file is stored under: the
    last segment of the rewritten reference is the last segment of the
    reference found in the listing. *)
Theorem re_sub_keeps_file_name (link : string) :
  last_segment (re_sub PATTERN_TO_FIND PATTERN_TO_SUB link)
  = last_segment link
  ∧ destination (re_sub PATTERN_TO_FIND PATTERN_TO_SUB link)
  = destination link.
Proof.
  assert (Hlast : last_segment (re_sub PATTERN_TO_FIND PATTERN_TO_SUB link)
                  = last_segment link).
  { symmetry. apply Substituted_segments.
    apply (re_sub_Substituted "/" "src/branch"). }
  split; [done|]. unfold destination. by rewrite Hlast.
Qed.

(** ** The manifest, whatever the build meets *)

Lemma for_each_ext {A} (f g : A → io unit) l :
  (∀ x fs, f x fs = g x fs) → ∀ fs, for_each f l fs = for_each g l fs.
Proof.
  intros Hfg. induction l as [|x l IH]; intros fs; simpl; [done|].
  unfold mbind, io_bind. rewrite Hfg.
  destruct (g x fs) as [[[[]|e|] fs1] t1]; [|done..]. by rewrite IH.
Qed.

Lemma for_each_map {A B} (f : B → io unit) (g : A → B) l :
  ∀ fs, for_each (λ x, f (g x)) l fs = for_each f (map g l) fs.
Proof.
  induction l as [|x l IH]; intros fs; simpl; [done|].
  unfold mbind, io_bind.
  destruct (f (g x) fs) as [[[[]|e|] fs1] t1]; [|done..]. by rewrite IH.
Qed.

Lemma for_each_app {A} (f : A → io unit) l1 l2 :
  ∀ fs, for_each f (l1 ++ l2) fs = (for_each f l1 ;; for_each f l2) fs.
Proof.
  induction l1 as [|x l1 IH]; intros fs; simpl.
  - unfold mbind, io_bind. simpl.
    by destruct (for_each f l2 fs) as [[r fs'] t].
  - unfold mbind, io_bind in *.
    destruct (f x fs) as [[[[]|e|] fs1] t1]; [|done..].
    rewrite IH.
    destruct (for_each f l1 fs1) as [[[[]|e|] fs2] t2]; [|done..].
    destruct (for_each f l2 fs2) as [[r fs3] t3]. by rewrite app_assoc.
Qed.

Lemma for_each_flat_map {A B} (f : B → io unit) (g : A → list B) l :
  ∀ fs, for_each (λ x, for_each f (g x)) l fs = for_each f (flat_map g l) fs.
Proof.
  induction l as [|x l IH]; intros fs; simpl; [done|].
  rewrite for_each_app. unfold mbind, io_bind.
  destruct (for_each f (g x) fs) as [[[[]|e|] fs1] t1]; [|done..].
  by rewrite IH.
Qed.

(** The two nested loops of the build are one loop over the walked paths. *)
Lemma manifest_loops_flatten p directory tree fs :
  for_each
    (λ '(root, _, files),
       for_each
         (λ file_name,
            let file_path := os_path_join root file_name in
            sha256_hash ← calculate_sha256 file_path ;
            writerow p [file_path; sha256_hash])
         files)
    (os_walk directory tree) fs
  = for_each (hash_and_write p) (walked_paths directory tree) fs.
Proof.
  unfold walked_paths. rewrite <- for_each_flat_map.
  apply for_each_ext. intros [[root ds] fls] fs1.
  apply (for_each_map (hash_and_write p) (os_path_join root)).
Qed.

(** A loop over the paths that returns has read every file. *)
Lemma hash_and_write_returned p paths :
  ∀ fs cur fs' t,
    files fs !! p = Some cur →
    for_each (hash_and_write p) paths fs = (Returned tt, fs', t) →
    ∃ rows,
      fs' = set_file p (cur ++ rows_bytes rows) fs
      ∧ t = []
      ∧ map fst rows = paths
      ∧ Forall (hashed_row fs p) rows.
Proof.
  induction paths as [|q paths IH]; intros fs cur fs' t Hp; simpl.
  - intros [= <- <-]. exists []. simpl.
    rewrite app_nil_r, set_file_same by done. repeat split. constructor.
  - intros Hrun. apply bind_returned in Hrun
      as ([] & fs1 & t1 & t2 & Hq & Hrest & ->).
    unfold hash_and_write in Hq.
    destruct (files fs !! q) as [data|] eqn:Hdata.
    + rewrite (write_row _ _ _ _ _ Hp Hdata) in Hq.
      injection Hq as <- <-.
      destruct (IH _ _ _ _ (files_set_file _ _ _) Hrest)
        as (rows & -> & -> & Hfst & Hrows).
      exists ((q, SHA256.hexdigest data) :: rows).
      rewrite set_file_set_file. simpl. rewrite <- app_assoc, Hfst.
      repeat split; [done..|]. constructor.
      * split; [apply hexdigest_is_hex_digest|]. intros _. by exists data.
      * eapply Forall_impl; [exact Hrows|]. intros row. apply hashed_row_frame.
    + unfold mbind, io_bind, calculate_sha256 in Hq. by rewrite Hdata in Hq.
Qed.

(** A loop over the paths stops at the first file it cannot read. *)
Lemma hash_and_write_raises p before q after :
  ∀ fs cur,
    files fs !! p = Some cur →
    Forall (λ path, is_Some (files fs !! path)) before →
    files fs !! q = None →
    ∃ rows,
      for_each (hash_and_write p) (before ++ q :: after) fs
      = (Raised OSError, set_file p (cur ++ rows_bytes rows) fs, [])
      ∧ map fst rows = before.
Proof.
  induction before as [|path before IH]; intros fs cur Hp Hread Hq.
  - exists []. simpl. rewrite app_nil_r, set_file_same by done.
    split; [|done].
    unfold mbind, io_bind, hash_and_write, calculate_sha256.
    unfold mbind, io_bind. by rewrite Hq.
  - apply Forall_cons in Hread as [[data Hdata] Hread].
    assert (q ≠ p) as Hqp by congruence.
    set (fs1 := set_file p
                  (cur ++ list_byte_of_string
                            (csv_row [path; SHA256.hexdigest data])) fs).
    destruct (IH fs1 _ (files_set_file _ _ _)) as (rows & Hrun & Hfst).
    { eapply Forall_impl; [exact Hread|]. intros n. apply is_Some_set_file. }
    { unfold fs1, set_file; simpl. by rewrite lookup_insert_ne. }
    exists ((path, SHA256.hexdigest data) :: rows). split.
    + change ((path :: before) ++ q :: after)
        with (path :: (before ++ q :: after)).
      erewrite for_each_cons_run;
        [|exact (write_row _ _ _ _ _ Hp Hdata)|exact Hrun].
      unfold fs1. rewrite set_file_set_file. simpl.
      by rewrite <- app_assoc.
    + simpl. by rewrite Hfst.
Qed.

Lemma build_returned_rows tree directory path_to_result fs fs' t :
  calculate_sha256_for_directory tree directory path_to_result fs
  = (Returned tt, fs', t) →
  ∃ rows : list (string * string),
    fs' = set_file path_to_result (manifest_bytes rows) fs
    ∧ map fst rows = walked_paths directory tree
    ∧ Forall (hashed_row fs path_to_result) rows.
Proof.
  rewrite calculate_sha256_for_directory_unfold.
  destruct (open_ok fs path_to_result); [|done].
  intros Hrun. apply bind_returned in Hrun
    as ([] & fs1 & t1 & t2 & Hhead & Hrows & ->).
  unfold writerow, file_write, modify_fs in Hhead.
  rewrite files_set_file, set_file_set_file in Hhead.
  injection Hhead as <- <-.
  rewrite manifest_loops_flatten in Hrows.
  destruct (hash_and_write_returned _ _ _ _ _ _ (files_set_file _ _ _) Hrows)
    as (rows & -> & _ & Hfst & Hall).
  exists rows. rewrite set_file_set_file. split; [done|]. split; [done|].
  eapply Forall_impl; [exact Hall|]. intros row. apply hashed_row_frame.
Qed.



(** X14: a file that cannot be read ends the build.  When the files walked
    before it can be read, the build raises [OSError] and leaves a manifest
    cut short: the header line and the rows of the files before the one that
    failed. *)
Theorem manifest_build_stops_at_unreadable_file
    (tree : node) (directory path_to_result : string) (fs : fsstate)
    (before after : list string) (q : string) :
  open_ok fs path_to_result = true →
  walked_paths directory tree = before ++ q :: after →
  Forall (λ path, is_Some (files fs !! path)) before →
  files fs !! q = None →
  q ≠ path_to_result →
  ∃ rows : list (string * string),
    calculate_sha256_for_directory tree directory path_to_result fs
    = (Raised OSError, set_file path_to_result (manifest_bytes rows) fs, [])
    ∧ map fst rows = before.
Proof.
  intros Hopen Hwalk Hread Hq Hne.
  set (header := list_byte_of_string (csv_row fieldnames)).
  set (fs1 := set_file path_to_result header fs).
  destruct (hash_and_write_raises path_to_result before q after fs1 header
              (files_set_file _ _ _)) as (rows & Hrun & Hfst).
  { eapply Forall_impl; [exact Hread|]. intros n. apply is_Some_set_file. }
  { unfold fs1, set_file; simpl. by rewrite lookup_insert_ne. }
  exists rows. split; [|done].
  rewrite calculate_sha256_for_directory_unfold, Hopen.
  eapply (bind_run_silent _ _ _ tt fs1).
  { unfold writerow, file_write, modify_fs.
    by rewrite files_set_file, set_file_set_file. }
  rewrite manifest_loops_flatten, Hwalk, Hrun.
  unfold fs1. by rewrite set_file_set_file.
Qed.


Lemma manifest_build_stops_at_unreadable_file_witness :
  ∃ rows : list (string * string),
    calculate_sha256_for_directory Sample.tree "out/flat"
      "out/repository_sha256" Sample2.fs_partial
    = (Raised OSError,
       set_file "out/repository_sha256" (manifest_bytes rows)
         Sample2.fs_partial, [])
    ∧ map fst rows = ["out/flat/a.txt"].
Proof.
  apply (manifest_build_stops_at_unreadable_file Sample.tree "out/flat"
           "out/repository_sha256" Sample2.fs_partial
           ["out/flat/a.txt"] [] "out/flat/sub/b.txt").
  - vm_compute. reflexivity.
  - vm_compute. reflexivity.
  - repeat constructor. eexists. vm_compute. reflexivity.
  - vm_compute. reflexivity.
  - discriminate.
Defined.

(** ** No path twice in the manifest *)

Lemma slash_match c :
  match c with "/"%char => true | _ => false end = Ascii.eqb c "/".
Proof. by destruct c as [[] [] [] [] [] [] [] []]. Qed.

Lemma list_ascii_append a b :
  list_ascii_of_string (a +:+ b)
  = list_ascii_of_string a ++ list_ascii_of_string b.
Proof.
  induction a as [|c a IH]; [done|].
  change (c :: list_ascii_of_string (a +:+ b)
          = c :: (list_ascii_of_string a ++ list_ascii_of_string b)).
  by rewrite IH.
Qed.

Lemma last_app_ne {A} (l1 l2 : list A) d :
  l2 ≠ [] → List.last (l1 ++ l2) d = List.last l2 d.
Proof.
  intros Hne. induction l1 as [|x l1 IH]; [done|].
  simpl. rewrite IH. destruct (l1 ++ l2) eqn:Happ; [|done].
  apply app_eq_nil in Happ as [_ ->]. done.
Qed.

Lemma last_In {A} (l : list A) d : l ≠ [] → In (List.last l d) l.
Proof.
  intros Hne. destruct (exists_last Hne) as (l' & x & ->).
  rewrite last_last. apply in_or_app. right. by left.
Qed.

Lemma ends_with_slash_append a name :
  name ≠ EmptyString → slash_free name → ends_with_slash (a +:+ name) = false.
Proof.
  intros Hne Hfree. unfold ends_with_slash.
  rewrite slash_match, list_ascii_append.
  assert (list_ascii_of_string name ≠ []) as Hne' by (by destruct name).
  rewrite last_app_ne by done.
  apply Ascii.eqb_neq. intros Heq. apply Hfree. rewrite <- Heq.
  by apply last_In.
Qed.

Lemma os_path_join_base top name :
  slash_free name → os_path_join top name = path_base top +:+ name.
Proof.
  intros Hfree. unfold os_path_join, path_base.
  destruct name as [|c name].
  - destruct (String.eqb top EmptyString || ends_with_slash top); [done|].
    by rewrite append_assoc.
  - assert (c ≠ "/"%char) as Hc by (intros ->; apply Hfree; by left).
    destruct c as [[] [] [] [] [] [] [] []]; try congruence;
      (destruct (String.eqb top EmptyString || ends_with_slash top);
       [done|by rewrite append_assoc]).
Qed.

Lemma path_base_join top name :
  name ≠ EmptyString → slash_free name →
  path_base (os_path_join top name) = path_base top +:+ name +:+ "/".
Proof.
  intros Hne Hfree. rewrite (os_path_join_base _ _ Hfree).
  unfold path_base at 1.
  rewrite (ends_with_slash_append _ _ Hne Hfree), orb_false_r.
  destruct (String.eqb_spec (path_base top +:+ name) EmptyString) as [Heq|_].
  - apply (f_equal String.length) in Heq. rewrite append_length in Heq.
    destruct name; [done|]. simpl in Heq. lia.
  - by rewrite append_assoc.
Qed.

Lemma rel_paths_Dir entries :
  rel_paths (Dir entries)
  = file_names entries
    ++ flat_map (λ e, map (λ r, e.1 +:+ "/" +:+ r) (rel_paths e.2)) entries.
Proof.
  simpl. f_equal. induction entries as [|[name sub] entries IH]; [done|].
  simpl. by rewrite IH.
Qed.

Lemma In_file_names_entry name entries :
  In name (file_names entries) → In name (map fst entries).
Proof.
  intros Hin. apply In_file_names in Hin.
  apply in_map_iff. by exists (name, File).
Qed.

(** The walked paths are the relative paths behind what [join] puts before
    a name. *)
Lemma walked_paths_rel tree :
  well_named tree →
  ∀ top, walked_paths top tree
         = map (λ r, path_base top +:+ r) (rel_paths tree).
Proof.
  induction tree as [|entries IH] using node_ind; intros Hnamed top; [done|].
  inversion Hnamed as [|es Hdup Hall]; subst.
  rewrite walked_paths_Dir, rel_paths_Dir, map_app. f_equal.
  - apply map_ext_in. intros name Hin. apply os_path_join_base.
    apply In_file_names_entry, in_map_iff in Hin as ([n sub] & <- & Hin).
    rewrite Forall_forall in Hall.
    by apply list_elem_of_In, Hall in Hin as (_ & ? & _).
  - clear Hdup Hnamed.
    induction entries as [|[name sub] entries IHentries]; [done|].
    apply Forall_cons in IH as [IHsub IH].
    apply Forall_cons in Hall as [(Hne & Hfree & Hsub) Hall].
    simpl in *. rewrite map_app, IHentries by done. f_equal.
    rewrite (IHsub Hsub), map_map, (path_base_join _ _ Hne Hfree).
    apply map_ext. intros r. by rewrite !append_assoc.
Qed.

Lemma append_inj_l a x y : a +:+ x = a +:+ y → x = y.
Proof.
  induction a as [|c a IH]; [done|].
  change (String c (a +:+ x) = String c (a +:+ y) → x = y).
  intros [= Heq]. by apply IH.
Qed.

(** Two paths below slash-free names agree only below the same name. *)
Lemma first_segment_inj d d' r r' :
  slash_free d → slash_free d' →
  d +:+ "/" +:+ r = d' +:+ "/" +:+ r' → d = d' ∧ r = r'.
Proof.
  revert d'. induction d as [|c d IH]; intros d' Hd Hd' Heq.
  - destruct d' as [|c' d'].
    + change (String "/" r = String "/" r') in Heq. by injection Heq as ->.
    + change (String "/" r = String c' (d' +:+ "/" +:+ r')) in Heq.
      injection Heq as <- _. destruct Hd'. by left.
  - destruct d' as [|c' d'].
    + change (String c (d +:+ "/" +:+ r) = String "/" r') in Heq.
      injection Heq as -> _. destruct Hd. by left.
    + change (String c (d +:+ "/" +:+ r) = String c' (d' +:+ "/" +:+ r'))
        in Heq.
      injection Heq as -> Heq.
      destruct (IH d') as [-> ->]; [..|done|done].
      * intros Hin. apply Hd. by right.
      * intros Hin. apply Hd'. by right.
Qed.

Lemma below_has_slash d r : ¬ slash_free (d +:+ "/" +:+ r).
Proof.
  intros Hfree. apply Hfree. rewrite list_ascii_append.
  apply in_or_app. right. by left.
Qed.

Lemma NoDup_map_inj {A B} (f : A → B) l :
  (∀ x y, f x = f y → x = y) → NoDup l → NoDup (map f l).
Proof.
  intros Hinj. induction 1 as [|x l Hx Hl IH]; simpl; [constructor|].
  apply NoDup_cons. split; [|done].
  intros Hin%list_elem_of_In. apply in_map_iff in Hin as (y & Heq & Hin).
  apply Hinj in Heq as ->. by apply Hx, list_elem_of_In.
Qed.

Lemma NoDup_file_names entries :
  NoDup (map fst entries) → NoDup (file_names entries).
Proof.
  unfold file_names. induction entries as [|[name sub] entries IH]; simpl.
  - constructor.
  - intros [Hnot Hdup]%NoDup_cons.
    destruct (negb (is_dir sub)); simpl; [|by apply IH].
    apply NoDup_cons. split; [|by apply IH].
    intros Hin%list_elem_of_In. apply Hnot, list_elem_of_In.
    apply in_map_iff in Hin as ([n s] & <- & Hin%filter_In).
    apply in_map_iff. exists (n, s). by destruct Hin.
Qed.

Lemma rel_paths_NoDup tree : well_named tree → NoDup (rel_paths tree).
Proof.
  induction tree as [|entries IH] using node_ind; intros Hnamed;
    [constructor|].
  inversion Hnamed as [|es Hdup Hall]; subst.
  rewrite rel_paths_Dir. apply NoDup_app. split; [|split].
  - by apply NoDup_file_names.
  - intros name Hname%list_elem_of_In Hbelow%list_elem_of_In.
    apply in_flat_map in Hbelow as ([d sub] & _ & Hin).
    apply in_map_iff in Hin as (r & <- & _).
    apply (below_has_slash d r).
    apply In_file_names_entry, in_map_iff in Hname as ([n s] & Heq & Hin).
    rewrite Forall_forall in Hall.
    apply list_elem_of_In, Hall in Hin as (_ & Hfree & _).
    simpl in *. by rewrite <- Heq.
  - clear Hnamed.
    induction entries as [|[d sub] entries IHentries]; [constructor|].
    apply Forall_cons in IH as [IHsub IH].
    apply Forall_cons in Hall as [(Hne & Hfree & Hsub) Hall].
    apply NoDup_cons in Hdup as [Hnot Hdup].
    simpl in *. apply NoDup_app. split; [|split].
    + apply NoDup_map_inj; [|by apply IHsub].
      intros x y Heq. by apply append_inj_l, append_inj_l in Heq.
    + intros x Hx%list_elem_of_In Hrest%list_elem_of_In.
      apply in_map_iff in Hx as (r & <- & _).
      apply in_flat_map in Hrest as ([d' sub'] & Hin & Hx).
      apply in_map_iff in Hx as (r' & Heq & _). simpl in Heq.
      rewrite Forall_forall in Hall.
      pose proof (Hall _ (proj2 (list_elem_of_In _ _) Hin)) as (_ & Hfree' & _).
      apply first_segment_inj in Heq as [-> _]; [|done..].
      apply Hnot, list_elem_of_In, in_map_iff. by exists (d, sub').
    + by apply IHentries.
Qed.

(** The walk of a well-named tree reports no path twice. *)
Lemma walked_paths_NoDup tree top :
  well_named tree → NoDup (walked_paths top tree).
Proof.
  intros Hnamed. rewrite (walked_paths_rel _ Hnamed).
  apply NoDup_map_inj; [|by apply rel_paths_NoDup].
  intros x y. apply append_inj_l.
Qed.

(** X15: the manifest names no file twice.  For a directory tree as a file
    system holds it (in every directory the names are distinct, not empty
    and without slash) the [file_path] values of a build that returns are
    pairwise distinct. *)
Theorem manifest_names_no_file_twice
    (tree : node) (directory path_to_result : string) (fs fs' : fsstate)
    (t : list event) :
  calculate_sha256_for_directory tree directory path_to_result fs
  = (Returned tt, fs', t) →
  well_named tree →
  ∃ rows : list (string * string),
    fs' = set_file path_to_result (manifest_bytes rows) fs
    ∧ NoDup (map fst rows).
Proof.
  intros Hrun Hnamed.
  destruct (build_returned_rows _ _ _ _ _ _ Hrun) as (rows & Hfs & Hfst & _).
  exists rows. split; [done|]. rewrite Hfst. by apply walked_paths_NoDup.
Qed.


Section MainComposition.

Variable session_get : string → get_result.
Variable soup_tbody : list byte → option (list element).
Variable scandir_tree : fsstate → string → node.


(** X18: [main] builds the manifest only after a crawl that returned.  If
    the crawl raises or waits for ever, [main] ends the same way with the
    store as the crawl left it, and nothing is written for the manifest. *)
Theorem main_without_crawl_builds_no_manifest
    (base_url project_url path_prefix : string) (fs crawled : fsstate)
    (r : outcome unit) (t : list event) :
  let path_to_project :=
    os_path_join path_prefix (last_segment project_url) in
  files fs !! path_to_project = None →
  fetch_data session_get soup_tbody SEMAPHORE_LIMIT base_url
    path_to_project project_url (add_dir path_to_project fs)
  = (r, crawled, t) →
  r ≠ Returned tt →
  main session_get soup_tbody scandir_tree base_url project_url path_prefix fs
  = (r, crawled, t).
Proof.
  intros path_to_project Hfree Hcrawl Hr. unfold main.
  fold path_to_project.
  unfold mbind at 1, io_bind at 1, os_makedirs. rewrite Hfree.
  unfold mbind at 1, io_bind at 1. rewrite Hcrawl.
  destruct r as [[]|e|]; done.
Qed.

End MainComposition.

Lemma manifest_names_no_file_twice_witness :
  ∃ rows : list (string * string),
    (calculate_sha256_for_directory Sample.tree "out/flat"
       "out/repository_sha256" Sample.fs1).1.2
    = set_file "out/repository_sha256" (manifest_bytes rows) Sample.fs1
    ∧ NoDup (map fst rows).
Proof.
  apply (manifest_names_no_file_twice Sample.tree "out/flat"
           "out/repository_sha256" Sample.fs1 _ []).
  - vm_compute. reflexivity.
  - apply well_named_dir.
    + apply (bool_decide_unpack _). vm_compute. exact I.
    + repeat first
        [ apply List.Forall_nil | apply List.Forall_cons | apply well_named_file
        | apply well_named_dir | split
        | discriminate
        | (apply (bool_decide_unpack _); vm_compute; exact I)
        | (intros Hin; vm_compute in Hin; intuition discriminate) ].
Defined.



Lemma main_without_crawl_builds_no_manifest_witness :
  let crawl :=
    fetch_data Sample.session_get Sample.soup_tbody SEMAPHORE_LIMIT
      Sample.base_url "out/deep" "/deep" (add_dir "out/deep" Sample.fs0) in
  main Sample.session_get Sample.soup_tbody Sample.scandir_tree
    Sample.base_url "/deep" "out" Sample.fs0
  = (Waiting, crawl.1.2, crawl.2).
Proof.
  intros crawl.
  apply (main_without_crawl_builds_no_manifest Sample.session_get
           Sample.soup_tbody Sample.scandir_tree Sample.base_url "/deep" "out"
           Sample.fs0 crawl.1.2 Waiting crawl.2).
  - vm_compute. reflexivity.
  - vm_compute. reflexivity.
  - discriminate.
Defined.

(** ** The depth a crawl can reach *)

Lemma for_each_first_waits {A} (body : A → io unit) x l fs fs1 t1 :
  body x fs = (Waiting, fs1, t1) →
  for_each body (x :: l) fs = (Waiting, fs1, t1).
Proof. intros Hx. cbn [for_each]. unfold mbind, io_bind. by rewrite Hx. Qed.

Section Depth.

Variable session_get : string → get_result.
Variable soup_tbody : list byte → option (list element).

Lemma fetch_data_first_entry_waits free base_url local_path url fs response
    tags entry rest fs1 t1 :
  session_get (base_url +:+ url) = Got response →
  soup_tbody (content response) = Some tags →
  find_all CLASSES tags = entry :: rest →
  fetch_element (save_file session_get free base_url)
    (fetch_data session_get soup_tbody free base_url) local_path entry fs
  = (Waiting, fs1, t1) →
  fetch_data session_get soup_tbody (S free) base_url local_path url fs
  = (Waiting, fs1,
     EvEnter (FetchData local_path url) :: EvAcquire
     :: EvGet (base_url +:+ url) :: t1).
Proof.
  intros Hget Hsoup Hfind Hentry. rewrite fetch_data_unfold.
  unfold coroutine, async_with, mbind at 1, io_bind at 1, emit.
  rewrite Hget, Hsoup, Hfind.
  by rewrite (for_each_first_waits _ _ _ _ _ _ Hentry).
Qed.

(** A chain of first entries that nests [depth] directories below [url]
    stops every crawl that has at most [depth + 1] free slots. *)
Lemma nests_waits base_url depth url :
  nests session_get soup_tbody base_url depth url →
  ∀ free local_path fs,
    (free ≤ S depth)%nat →
    files fs = ∅ →
    ∃ fs' t,
      fetch_data session_get soup_tbody free base_url local_path url fs
      = (Waiting, fs', t)
      ∧ files fs' = ∅.
Proof.
  induction 1 as
    [url response tags entry rest marker link Hget Hsoup Hfind Hclass Hnext
    |depth url response tags entry rest marker link Hget Hsoup Hfind Hclass
       Hdir Hnext _ IH];
    intros free local_path fs Hfree Hempty.
  - destruct free as [|free]; [by eexists _, _|].
    assert (free = 0%nat) as -> by lia.
    assert (∃ fs1 t1,
              fetch_element (save_file session_get 0 base_url)
                (fetch_data session_get soup_tbody 0 base_url) local_path
                entry fs = (Waiting, fs1, t1) ∧ files fs1 = ∅)
      as (fs1 & t1 & Hentry & Hfs1).
    { destruct (decide (marker = "octicon-file")) as [->|Hdir].
      - rewrite (fetch_element_file _ _ _ _ _ Hclass Hnext).
        eexists _, _. split; [apply save_file_waits|done].
      - rewrite (fetch_element_directory _ _ _ _ _ _ Hclass Hdir Hnext).
        unfold mbind, io_bind, os_makedirs. cbv beta.
        rewrite Hempty, lookup_empty.
        eexists _, _. split; [reflexivity|done]. }
    eexists _, _. split; [|exact Hfs1].
    by apply (fetch_data_first_entry_waits _ _ _ _ _ _ _ _ _ _ _
                Hget Hsoup Hfind Hentry).
  - destruct free as [|free]; [by eexists _, _|].
    set (new_path := os_path_join local_path (last_segment link)).
    destruct (IH free new_path (add_dir new_path fs)) as (fs1 & t1 & Hsub & Hfs1);
      [lia|done|].
    assert (fetch_element (save_file session_get free base_url)
              (fetch_data session_get soup_tbody free base_url) local_path
              entry fs = (Waiting, fs1, t1)) as Hentry.
    { rewrite (fetch_element_directory _ _ _ _ _ _ Hclass Hdir Hnext).
      fold new_path. unfold mbind, io_bind, os_makedirs. cbv beta.
      by rewrite Hempty, lookup_empty, Hsub. }
    eexists _, _. split; [|exact Hfs1].
    by apply (fetch_data_first_entry_waits _ _ _ _ _ _ _ _ _ _ _
                Hget Hsoup Hfind Hentry).
Qed.

(** X19: the semaphore bounds the depth of a crawl, not the downloads in
    flight.  When the first entries of the listings nest [depth]
    directories below [url], a crawl of [url] that starts with at most
    [depth + 1] free slots, into a store without files, waits for ever and
    stores no file. *)
Theorem fetch_data_waits_below_its_slots
    (base_url : string) (depth free : nat) (local_path url : string)
    (fs : fsstate) :
  nests session_get soup_tbody base_url depth url →
  (free ≤ S depth)%nat →
  files fs = ∅ →
  ∃ fs' t,
    fetch_data session_get soup_tbody free base_url local_path url fs
    = (Waiting, fs', t)
    ∧ files fs' = ∅.
Proof. intros Hnests Hfree Hempty. by apply (nests_waits _ _ _ Hnests). Qed.

(** X20: [main] never finishes on a repository whose first entries nest
    two directories below the project page: started on a store without
    files it waits for ever, stores no file and writes no manifest. *)
Theorem main_waits_two_directories_down
    (scandir_tree : fsstate → string → node)
    (base_url project_url path_prefix : string) (fs : fsstate) :
  nests session_get soup_tbody base_url 2 project_url →
  files fs = ∅ →
  ∃ fs' t,
    main session_get soup_tbody scandir_tree base_url project_url
      path_prefix fs
    = (Waiting, fs', t)
    ∧ files fs' = ∅.
Proof.
  intros Hnests Hempty.
  set (path_to_project := os_path_join path_prefix (last_segment project_url)).
  destruct (nests_waits _ _ _ Hnests SEMAPHORE_LIMIT path_to_project
              (add_dir path_to_project fs)) as (fs' & t & Hrun & Hfs');
    [unfold SEMAPHORE_LIMIT; lia|done|].
  exists fs', t. split; [|done].
  unfold main. fold path_to_project.
  unfold mbind at 1, io_bind at 1, os_makedirs.
  rewrite Hempty, lookup_empty.
  unfold mbind at 1, io_bind at 1. by rewrite Hrun.
Qed.

End Depth.

Lemma sample_deep_nests :
  nests Sample.session_get Sample.soup_tbody Sample.base_url 2 "/deep".
Proof.
  eapply nests_directory; [reflexivity..|discriminate|reflexivity|].
  eapply nests_directory; [reflexivity..|discriminate|reflexivity|].
  eapply nests_entry; reflexivity.
Defined.

Lemma fetch_data_waits_below_its_slots_witness :
  ∃ fs' t,
    fetch_data Sample.session_get Sample.soup_tbody 3 Sample.base_url
      "out/deep" "/deep" Sample.fs0
    = (Waiting, fs', t)
    ∧ files fs' = ∅.
Proof.
  apply (fetch_data_waits_below_its_slots Sample.session_get
           Sample.soup_tbody Sample.base_url 2 3 "out/deep" "/deep" Sample.fs0).
  - exact sample_deep_nests.
  - lia.
  - reflexivity.
Defined.

Lemma main_waits_two_directories_down_witness :
  ∃ fs' t,
    main Sample.session_get Sample.soup_tbody Sample.scandir_tree
      Sample.base_url "/deep" "out" Sample.fs0
    = (Waiting, fs', t)
    ∧ files fs' = ∅.
Proof.
  apply (main_waits_two_directories_down Sample.session_get
           Sample.soup_tbody Sample.scandir_tree Sample.base_url "/deep" "out"
           Sample.fs0).
  - exact sample_deep_nests.
  - reflexivity.
Defined.

(** ** What the listing loop leaves out and what it leaves behind *)



Section Download.

Variable session_get : string → get_result.

(** X22: a failure of [open] is not caught.  When the GET returns a
    response and the destination cannot be opened, as when [path] does not
    exist, [save_file] raises [OSError] after the request, with its slot
    released and the store unchanged; a reference that ends in a slash gives
    an empty file name and always fails this way. *)
Theorem save_file_raises_when_open_fails
    (free : nat) (base_url url path : string) (fs : fsstate)
    (response : response) :
  session_get (base_url +:+ url) = Got response →
  open_ok fs (destination url path) = false ∨ last_segment url = EmptyString →
  save_file session_get (S free) base_url url path fs
  = (Raised OSError, fs,
     [EvEnter (SaveFile url path); EvAcquire; EvGet (base_url +:+ url);
      EvRelease; EvLeave (SaveFile url path)]).
Proof.
  intros Hget Hopen.
  assert (open_ok fs (destination url path) = false) as Hfail.
  { destruct Hopen as [?|Hname]; [done|]. unfold open_ok.
    destruct (destination_is_directly_in_path_parts url path) as [_ Hlast].
    by rewrite Hlast, Hname. }
  by rewrite save_file_unfold, Hget, Hfail.
Qed.

End Download.

Lemma save_file_raises_when_open_fails_witness :
  save_file Sample.session_get 3 Sample.base_url
    "/flat/raw/branch/master/a.txt" "out/missing" Sample.fs0
  = (Raised OSError, Sample.fs0,
     [EvEnter (SaveFile "/flat/raw/branch/master/a.txt" "out/missing");
      EvAcquire;
      EvGet (Sample.base_url +:+ "/flat/raw/branch/master/a.txt");
      EvRelease;
      EvLeave (SaveFile "/flat/raw/branch/master/a.txt" "out/missing")]).
Proof.
  apply (save_file_raises_when_open_fails Sample.session_get 2
           Sample.base_url "/flat/raw/branch/master/a.txt" "out/missing"
           Sample.fs0 (Response 200 (list_byte_of_string "abc"))).
  - reflexivity.
  - left. vm_compute. reflexivity.
Defined.

Lemma for_each_returned_split {A} (body : A → io unit) pre x post fs fs' t :
  for_each body (pre ++ x :: post) fs = (Returned tt, fs', t) →
  ∃ fs1 fs2 t1 t2 t3,
    for_each body pre fs = (Returned tt, fs1, t1)
    ∧ body x fs1 = (Returned tt, fs2, t2)
    ∧ for_each body post fs2 = (Returned tt, fs', t3).
Proof.
  rewrite for_each_app. intros Hrun.
  apply bind_returned in Hrun as ([] & fs1 & t1 & t23 & Hpre & Hrun & ->).
  cbn [for_each] in Hrun.
  apply bind_returned in Hrun as ([] & fs2 & t2 & t3 & Hx & Hpost & ->).
  eauto 10.
Qed.

Lemma crawl_steps_grow local_path fs fs' :
  rtc (crawl_step local_path) fs fs' →
  dirs fs ⊆ dirs fs' ∧ dom (files fs) ⊆ dom (files fs').
Proof.
  induction 1 as [fs0|fs0 fs1 fs2 Hstep _ IH]; [done|].
  apply crawl_step_grows in Hstep as [Hdirs Hfiles].
  destruct IH as [IHdirs IHfiles]. split; by etrans.
Qed.

Section CrawlResult.

Variable session_get : string → get_result.
Variable soup_tbody : list byte → option (list element).

Lemma fetch_element_steps free base_url local_path entry :
  store_rel (rtc (crawl_step local_path))
    (fetch_element (save_file session_get free base_url)
       (fetch_data session_get soup_tbody free base_url) local_path entry).
Proof.
  unfold fetch_element.
  destruct (class_ entry !! 1%nat) as [marker|];
    [|apply store_rel_raise; apply _].
  destruct (String.eqb marker _);
    (destruct (find_next_sibling entry) as [[[link|]]|];
     [|apply store_rel_raise; apply _..]).
  - apply save_file_steps.
  - pose proof (os_path_join_starts_with local_path (last_segment link)
                  (last_segment_slash_free link)) as Hbelow.
    apply store_rel_bind; [apply _|by apply os_makedirs_steps|]. intros _.
    intros fs r fs' t Hrun. eapply crawl_steps_below; [exact Hbelow|].
    by eapply fetch_data_steps.
Qed.

(** X23: a crawl that returns has mirrored its listing.  For every entry
    of the listing with a second class and a reference, after the call for
    the directory has returned: if the entry is a file entry whose download
    got a response, a file exists at its destination in [local_path]; if it
    is a directory entry, its directory exists in [local_path]. *)
Theorem fetch_data_returned_mirrors_listing
    (free : nat) (base_url local_path url : string) (fs fs' : fsstate)
    (t : list event) (response : response) (tags : list element)
    (entry : element) (marker link : string) :
  fetch_data session_get soup_tbody free base_url local_path url fs
  = (Returned tt, fs', t) →
  session_get (base_url +:+ url) = Got response →
  soup_tbody (content response) = Some tags →
  In entry (find_all CLASSES tags) →
  class_ entry !! 1%nat = Some marker →
  find_next_sibling entry = Some (Sibling (Some link)) →
  if decide (marker = "octicon-file")
  then ∀ body,
         session_get
           (base_url +:+ re_sub PATTERN_TO_FIND PATTERN_TO_SUB link)
         = Got body →
         is_Some
           (files fs'
              !! destination (re_sub PATTERN_TO_FIND PATTERN_TO_SUB link)
                   local_path)
  else os_path_join local_path (last_segment link) ∈ dirs fs'.
Proof.
  intros Hrun Hget Hsoup Hin Hclass Hnext.
  rewrite fetch_data_unfold in Hrun.
  apply coroutine_returned in Hrun as (t0 & Hrun & ->).
  apply async_with_returned in Hrun as (free' & t1 & -> & Hrun & ->).
  apply bind_returned in Hrun as ([] & fs0 & t2 & t3 & Hemit & Hrun & ->).
  injection Hemit as <- <-. rewrite Hget, Hsoup in Hrun.
  apply in_split in Hin as (pre & post & Hsplit). rewrite Hsplit in Hrun.
  apply for_each_returned_split in Hrun
    as (fs1 & fs2 & t4 & t5 & t6 & _ & Hentry & Hpost).
  assert (dirs fs2 ⊆ dirs fs' ∧ dom (files fs2) ⊆ dom (files fs'))
    as [Hdirs Hfiles].
  { apply (crawl_steps_grow local_path).
    eapply (store_rel_for_each (rtc (crawl_step local_path))); [|exact Hpost].
    intros x. apply fetch_element_steps. }
  case_decide as Hmarker.
  - subst marker. intros body Hbody.
    rewrite (fetch_element_file _ _ _ _ _ Hclass Hnext) in Hentry.
    destruct free' as [|free'']; [done|].
    rewrite save_file_unfold, Hbody in Hentry.
    destruct (open_ok fs1 _); [|done]. injection Hentry as <- _.
    apply elem_of_dom, Hfiles, elem_of_dom. rewrite files_set_file. eauto.
  - rewrite (fetch_element_directory _ _ _ _ _ _ Hclass Hmarker Hnext)
      in Hentry.
    apply bind_returned in Hentry as ([] & fs3 & t7 & t8 & Hmk & Hsub & _).
    apply Hdirs.
    apply fetch_data_steps, crawl_steps_grow in Hsub as [Hsub _].
    apply Hsub. unfold os_makedirs in Hmk.
    destruct (files fs1 !! _); [done|]. injection Hmk as <- _.
    apply elem_of_union_l, elem_of_singleton. done.
Qed.

End CrawlResult.

Lemma fetch_data_returned_mirrors_listing_witness :
  is_Some
    (files Sample2.flat_run.1.2
       !! destination
            (re_sub PATTERN_TO_FIND PATTERN_TO_SUB
               "/flat/src/branch/master/b.txt") "out/flat").
Proof.
  refine (fetch_data_returned_mirrors_listing Sample.session_get
            Sample.soup_tbody SEMAPHORE_LIMIT Sample.base_url "out/flat"
            "/flat" Sample2.fs_other Sample2.flat_run.1.2 Sample2.flat_run.2
            (Response 200 (list_byte_of_string "page: flat"))
            [Sample.file_tag "/flat/src/branch/master/a.txt";
             Sample.file_tag "/flat/src/branch/master/b.txt"]
            (Sample.file_tag "/flat/src/branch/master/b.txt")
            "octicon-file" "/flat/src/branch/master/b.txt"
            _ _ _ _ _ _
            (Response 404 (list_byte_of_string "Not found")) _).
  - vm_compute. reflexivity.
  - reflexivity.
  - reflexivity.
  - right. left. reflexivity.
  - reflexivity.
  - reflexivity.
  - reflexivity.
Defined.
